(** * deepserializer.views: the view-set layer of djangorestframework-deepserializer

    A shallow embedding of [src/deepserializer/views.py]:

    - [PyStr]      the Python string operations the module relies on
                   ([str.startswith], [str.split], [int]);
    - [Walker]     [ReadOnlyDeepViewSet.build_possible_fields];
    - [Shaper]     [ReadOnlyDeepViewSet.get_serializer] and [get_queryset];
    - [Registry]   [__init_subclass__] and [get_view_set_class] over the
                   shared [_viewsets] dictionary;
    - [NestedWrite] [DeepCreateViewSet.deep_create] and the write engine
                   it delegates to. *)

From stdpp Require Import base option list sets gmap strings.
From Stdlib Require Import Ascii ZArith Lia.
From Stdlib Require DecimalString DecimalZ DecimalPos.

Local Open Scope string_scope.
Local Open Scope list_scope.
Local Open Scope nat_scope.

(** ** Python strings *)

Module PyStr.

(** [path.startswith(prefix)] *)
Definition startswith (path prefix : string) : bool := String.prefix prefix path.

(** [s.split(sep)] for a one-character separator: never returns the
  empty list, [''.split(',') == ['']]. *)
Fixpoint split (sep : Ascii.ascii) (s : string) : list string :=
match s with
| EmptyString => [EmptyString]
| String c r =>
    if Ascii.eqb c sep then EmptyString :: split sep r
    else match split sep r with
         | [] => [String c EmptyString]
         | w :: ws => String c w :: ws
         end
end.

(** [s.count('__')]: occurrences of the path separator, scanned from the
  left without overlap, as [s.split('__')] cuts them. *)
Fixpoint count_sep (s : string) : nat :=
match s with
| EmptyString => 0
| String c r =>
    if Ascii.eqb c "_"%char then
      match r with
      | EmptyString => 0
      | String d r' => if Ascii.eqb d "_"%char then S (count_sep r') else count_sep r
      end
    else count_sep r
end.

(** [len(s.split('__'))] *)
Definition segment_count (s : string) : nat := S (count_sep s).

(** Last character of a string is an underscore. *)
Fixpoint ends_with_underscore (s : string) : bool :=
match s with
| EmptyString => false
| String c EmptyString => Ascii.eqb c "_"%char
| String _ r => ends_with_underscore r
end.

(** Django's system checks fields.E001 and fields.E002: a field name
  does not end with an underscore and does not contain ["__"]. *)
Definition valid_field_name (s : string) : bool :=
Nat.eqb (count_sep s) 0 && negb (ends_with_underscore s).

(** What [int] does with a string is fixed by the language for ASCII
    strings up to one setting of the interpreter, the limit on the number
    of digits; for a string with a character outside ASCII it depends on
    the Unicode tables the interpreter was built with. *)
Record Interpreter := {
  int_max_str_digits : nat;
  int_non_ascii : string → option Z
}.

(** [s.isascii()] *)
Fixpoint is_ascii (s : string) : bool :=
  match s with
  | EmptyString => true
  | String c r => Nat.ltb (Ascii.nat_of_ascii c) 128 && is_ascii r
  end.

(** The whitespace [int] skips at both ends of an ASCII string: tab,
    line feed, vertical tab, form feed, carriage return and space. *)
Definition is_space (c : Ascii.ascii) : bool :=
  let n := Ascii.nat_of_ascii c in
  (Nat.leb 9 n && Nat.leb n 13) || Nat.eqb n 32.

Fixpoint lstrip (s : string) : string :=
  match s with
  | EmptyString => EmptyString
  | String c r => if is_space c then lstrip r else s
  end.

Fixpoint rstrip (s : string) : string :=
  match s with
  | EmptyString => EmptyString
  | String c r =>
      match rstrip r with
      | EmptyString => if is_space c then EmptyString else String c EmptyString
      | r' => String c r'
      end
  end.

(** The string without the whitespace at its ends. *)
Definition strip (s : string) : string := rstrip (lstrip s).

Definition is_digit (c : Ascii.ascii) : bool :=
  let n := Ascii.nat_of_ascii c in Nat.leb 48 n && Nat.leb n 57.

(** The digits of a run of decimal digits in which single underscores
    may stand between two digits; [None] when the run is empty, starts
    or ends with an underscore, has two underscores in a row or holds
    any other character. *)
Fixpoint digit_run (after_digit : bool) (s : string) : option string :=
  match s with
  | EmptyString => if after_digit then Some EmptyString else None
  | String c r =>
      if is_digit c then String c <$> digit_run true r
      else if Ascii.eqb c "_"%char && after_digit then digit_run false r
      else None
  end.

(** A number of digits the interpreter accepts to convert:
    [int_max_str_digits] is [sys.get_int_max_str_digits()], 0 when there
    is no limit, and numbers of up to 640 digits are never refused. *)
Definition within_limit (py : Interpreter) (digits : nat) : bool :=
  negb (Nat.ltb 640 digits && Nat.ltb 0 (int_max_str_digits py)
        && Nat.ltb (int_max_str_digits py) digits).

(** The sign in front of a number and what follows it. *)
Definition split_sign (s : string) : bool * string :=
  match s with
  | EmptyString => (false, EmptyString)
  | String c r =>
      if Ascii.eqb c "+"%char then (false, r)
      else if Ascii.eqb c "-"%char then (true, r)
      else (false, s)
  end.

(** [int(s)] in base ten for an ASCII string: optional whitespace, an
    optional sign, a run of digits, optional whitespace; [None] where
    Python raises [ValueError]. *)
Definition int_ascii (py : Interpreter) (s : string) : option Z :=
  let signed := split_sign (strip s) in
  match digit_run false signed.2 with
  | Some ds =>
      if within_limit py (String.length ds) then
        match DecimalString.NilEmpty.uint_of_string ds with
        | Some u => Some (if signed.1 then Z.opp (Z.of_uint u) else Z.of_uint u)
        | None => None
        end
      else None
  | None => None
  end.

(** [int(s)] for a string; [None] where Python raises [ValueError]. For
    a string that is not ASCII the answer is the interpreter's
    [int_non_ascii]. *)
Definition int_of_str (py : Interpreter) (s : string) : option Z :=
  if is_ascii s then int_ascii py s else int_non_ascii py s.

(** [str(n)] for an integer. *)
Definition str_of_int (n : Z) : string :=
  match n with
  | Z0 => "0"
  | Zpos p => DecimalString.NilEmpty.string_of_uint (Pos.to_uint p)
  | Zneg p => String "-"%char (DecimalString.NilEmpty.string_of_uint (Pos.to_uint p))
  end.

(** The number of decimal digits of an integer. *)
Definition decimal_digits (n : Z) : nat := String.length (str_of_int (Z.abs n)).

(** Some character of the string satisfies the test. *)
Fixpoint any_char (test : Ascii.ascii → bool) (s : string) : bool :=
  match s with
  | EmptyString => false
  | String c r => test c || any_char test r
  end.

(** A character no integer literal holds: neither digit, sign,
    underscore nor whitespace. *)
Definition not_numeric (c : Ascii.ascii) : bool :=
  negb (is_digit c || is_space c || Ascii.eqb c "+"%char || Ascii.eqb c "-"%char
        || Ascii.eqb c "_"%char).

End PyStr.

(** ** The relation graph walker *)

Module Walker.

(** A model class is known by its identity. *)
Definition Model := nat.

(** What [build_possible_fields] reads of a field: [field.name] and
  [field.related_model] ([None] for a scalar field). *)
Record Field := { name : string; related_model : option Model }.

(** What the view-set reads of a model class: [model.__name__] and
  [model._meta.get_fields()]. *)
Record ModelClass := { __name__ : string; get_fields : list Field }.

Abbreviation Schema := (gmap Model ModelClass).

Definition fields_of (schema : Schema) (m : Model) : list Field :=
match schema !! m with
| Some c => get_fields c
| None => []
end.

(** [model not in excludes]; [None] is never a member of a list of
  model classes. *)
Definition not_in (model : option Model) (excludes : list Model) : bool :=
match model with
| None => true
| Some m => bool_decide (m ∉ excludes)
end.

(** [f"{field_name}__{field}"] *)
Definition join (field_name field : string) : string :=
field_name +:+ "__" +:+ field.

(** A [for] loop whose body may fail to return. *)
Fixpoint for_each {A B : Type} (body : B → A → option B) (l : list A) (acc : B)
: option B :=
match l with
| [] => Some acc
| x :: l' => acc' ← body acc x; for_each body l' acc'
end.

(** The body of the loop of [build_possible_fields]; [recurse] is the
  recursive call. *)
Definition visit (recurse : Model → list Model → option (gset string))
  (parent_model : Model) (excludes : list Model)
  (possible_fields : gset string) (field_relation : Field)
: option (gset string) :=
let model := related_model field_relation in
if not_in model excludes then
  let field_name := name field_relation in
  let possible_fields := possible_fields ∪ {[ field_name ]} in
  match model with
  | Some m =>
      sub ← recurse m (excludes ++ [parent_model]);
      Some (possible_fields ∪ set_map (join field_name) sub)
  | None => Some possible_fields
  end
else Some possible_fields.

(** [build_possible_fields(parent_model, excludes)]; [None] when the
  recursion is deeper than [fuel]. *)
Fixpoint build_possible_fields (schema : Schema) (fuel : nat)
  (parent_model : Model) (excludes : list Model) : option (gset string) :=
match fuel with
| 0 => None
| S fuel' =>
    for_each (visit (build_possible_fields schema fuel') parent_model excludes)
             (fields_of schema parent_model) ∅
end.

(** The model classes a model refers to. *)
Definition targets (c : ModelClass) : gset Model :=
list_to_set (omap related_model (get_fields c)).

(** Every entity type of the schema: the declared ones and the ones
  they refer to. *)
Definition entity_types (schema : Schema) : gset Model :=
dom schema ∪ ⋃ ((λ kc, targets kc.2) <$> map_to_list schema).

(** A depth of recursion no enumeration exceeds. *)
Definition enough_fuel (schema : Schema) : nat :=
2 * size (entity_types schema) + 1.

(** What [build_possible_fields(m, excludes)] returns. *)
Definition possible_fields_of (schema : Schema) (m : Model) (excludes : list Model)
: gset string :=
default ∅ (build_possible_fields schema (enough_fuel schema) m excludes).

(** [model.__name__] *)
Definition name_of (schema : Schema) (m : Model) : string :=
match schema !! m with
| Some c => __name__ c
| None => EmptyString
end.

(** A check on every field of every declared model. *)
Definition all_fields (check : Model → Field → bool) (schema : Schema) : bool :=
forallb (λ kc, forallb (check kc.1) (get_fields kc.2)) (map_to_list schema).

(** No model has a relation to itself. *)
Definition no_self_reference (schema : Schema) : bool :=
all_fields (λ m f, bool_decide (related_model f ≠ Some m)) schema.

(** Every field name passes Django's field-name checks. *)
Definition valid_names (schema : Schema) : bool :=
all_fields (λ _ f, PyStr.valid_field_name (name f)) schema.

End Walker.

(** ** Exceptions *)

Module Exc.

(** The exceptions the module can let through. *)
Inductive Exception :=
| ValueError (message : string)
| KeyError (key : string)
| ValidationError (path : list (string * nat)) (fields : list string)
| ImproperlyConfigured (message : string).

(** A computation that returns or raises. *)
Definition result (A : Type) : Type := Exception + A.

Definition raise {A : Type} (e : Exception) : result A := inl e.
Definition ret {A : Type} (a : A) : result A := inr a.

Definition bind {A B : Type} (r : result A) (k : A → result B) : result B :=
match r with
| inl e => inl e
| inr a => k a
end.

Definition raises {A : Type} (r : result A) : bool :=
match r with
| inl _ => true
| inr _ => false
end.

End Exc.

(** ** The query shaper *)

Module Shaper.
Import Exc.

(** [request.query_params]: each key with the value [get] and [items]
  give for it. *)
Abbreviation QueryParams := (gmap string string).

(** What the view-set reads of its serializer class:
  [Meta.original_depth] and [_all_related_paths]. *)
Record SerializerClass := {
original_depth : Z;
_all_related_paths : gset string
}.

(** An argument of [int]: a string of the request or an integer. *)
Inductive PyValue :=
| PyStr_ (s : string)
| PyInt (z : Z).

(** [int(v)] *)
Definition int (py : PyStr.Interpreter) (v : PyValue) : result Z :=
match v with
| PyInt z => ret z
| PyStr_ s =>
    match PyStr.int_of_str py s with
    | Some z => ret z
    | None => raise (ValueError s)
    end
end.

(** [params.get('depth', serializer_class.Meta.original_depth)] *)
Definition depth_argument (params : QueryParams) (serializer_class : SerializerClass)
: PyValue :=
match params !! "depth" with
| Some s => PyStr_ s
| None => PyInt (original_depth serializer_class)
end.

(** [params.get(key, '')] *)
Definition get (params : QueryParams) (key : string) : string :=
default EmptyString (params !! key).

(** [set(params.get('exclude', '').split(','))] *)
Definition excludes_of (params : QueryParams) : gset string :=
list_to_set (PyStr.split "," (get params "exclude")).

(** [any(path.startswith(exclude) for exclude in excludes if exclude)] *)
Definition any_startswith (path : string) (excludes : gset string) : bool :=
existsb (PyStr.startswith path)
        (List.filter (λ exclude, negb (String.eqb exclude EmptyString)) (elements excludes)).

(** The set comprehension handed to the serializer and to
  [optimize_queryset]. *)
Definition relations_paths (params : QueryParams) (serializer_class : SerializerClass)
: gset string :=
let excludes := excludes_of params in
filter (λ path, any_startswith path excludes = false)
       (_all_related_paths serializer_class).

(** The serializer [get_serializer] instantiates: with the request's
  depth and paths, or as the parent class does without a request. *)
Inductive Serializer :=
| DeepSerializer (depth : Z) (relations_paths : gset string)
| DefaultSerializer.

(** [get_serializer(self)] *)
Definition get_serializer (py : PyStr.Interpreter) (request : option QueryParams)
  (serializer_class : SerializerClass) : result Serializer :=
match request with
| Some params =>
    bind (int py (depth_argument params serializer_class)) (λ depth,
    ret (DeepSerializer depth (relations_paths params serializer_class)))
| None => ret DefaultSerializer
end.

(** A queryset, as far as the view-set shapes it: the paths and depth
  given to [optimize_queryset], the keyword arguments of every
  [filter] call and the arguments of the last [order_by] call. *)
Record QuerySet := {
eager_paths : option (gset string * Z);
filter_calls : list (gmap string string);
ordering : list string
}.

(** [serializer_class.optimize_queryset(queryset, paths, depth)] *)
Definition optimize_queryset (queryset : QuerySet) (paths : gset string) (depth : Z)
: QuerySet :=
{| eager_paths := Some (paths, depth);
   filter_calls := filter_calls queryset;
   ordering := ordering queryset |}.

(** [queryset.filter] called with the keyword arguments [filter_by] *)
Definition filter_ (queryset : QuerySet) (filter_by : gmap string string) : QuerySet :=
{| eager_paths := eager_paths queryset;
   filter_calls := filter_calls queryset ++ [filter_by];
   ordering := ordering queryset |}.

(** [queryset.order_by] called with the arguments [order_by] *)
Definition order_by_ (queryset : QuerySet) (order_by : list string) : QuerySet :=
{| eager_paths := eager_paths queryset;
   filter_calls := filter_calls queryset;
   ordering := order_by |}.

(** [{field: value for field, value in params.items()
    if field in self._possible_fields}] *)
Definition filter_by_of (params : QueryParams) (_possible_fields : gset string)
: gmap string string :=
filter (λ kv, kv.1 ∈ _possible_fields) params.

(** [[field for field in params.get('order_by', '').split(',')
    if field in self._possible_fields]] *)
Definition order_by_of (params : QueryParams) (_possible_fields : gset string)
: list string :=
List.filter (λ field, bool_decide (field ∈ _possible_fields))
            (PyStr.split "," (get params "order_by")).

(** [get_queryset(self)] *)
Definition get_queryset (py : PyStr.Interpreter) (params : QueryParams)
  (serializer_class : SerializerClass)
  (queryset : QuerySet) (_possible_fields : gset string) : result QuerySet :=
bind (int py (depth_argument params serializer_class)) (λ depth,
let queryset :=
  optimize_queryset queryset (relations_paths params serializer_class) depth in
let filter_by := filter_by_of params _possible_fields in
let queryset :=
  if bool_decide (filter_by = ∅) then queryset else filter_ queryset filter_by in
let order_by := order_by_of params _possible_fields in
let queryset :=
  match order_by with
  | [] => queryset
  | _ => order_by_ queryset order_by
  end in
ret queryset).

(** The reading of the exclude parameter by whole path segments:
  [exclude] is [path] or is followed in [path] by the separator. *)
Definition segment_prefix (exclude path : string) : bool :=
String.eqb exclude path || PyStr.startswith path (exclude +:+ "__").

End Shaper.

(** ** The registry of view-sets *)

Module Registry.
Import Exc Walker.

(** What [serializer_class] holds: a class named in a class body, or
  the class [DeepSerializer.get_serializer_class(model, use_case)]
  returns. *)
Inductive SerializerRef :=
| Declared (serializer : string)
| Generated (model : Model) (use_case : string).

(** The attributes of a view-set class the module reads and writes, as
  the class sees them, its own or inherited. [queryset] is the model
  of [cls.queryset], [None] when the attribute is [None];
  [_possible_fields] is [None] until some class on the way has set
  it. Docstrings are not modelled. *)
Record ViewSetClass := {
cls_name : string;
use_case : string;
queryset : option Model;
serializer_class : option SerializerRef;
_possible_fields : option (gset string)
}.

(** The three classes the module itself defines. *)
Definition ReadOnlyDeepViewSet : ViewSetClass :=
{| cls_name := "ReadOnlyDeepViewSet"; use_case := "ReadOnly"; queryset := None;
   serializer_class := None; _possible_fields := None |}.

Definition DeepViewSet : ViewSetClass :=
{| cls_name := "DeepViewSet"; use_case := EmptyString; queryset := None;
   serializer_class := None; _possible_fields := None |}.

Definition DeepCreateViewSet : ViewSetClass :=
{| cls_name := "DeepCreateViewSet"; use_case := EmptyString; queryset := None;
   serializer_class := None; _possible_fields := None |}.

(** The class objects created so far, a class being known by its
  position, and the dictionary [ReadOnlyDeepViewSet._viewsets] every
  subclass shares. *)
Record State := {
classes : list ViewSetClass;
_viewsets : gmap string nat
}.

(** The state once the module is imported: [__init_subclass__] ran for
  [DeepViewSet] and [DeepCreateViewSet] and found no queryset. *)
Definition initial : State :=
{| classes := [ReadOnlyDeepViewSet; DeepViewSet; DeepCreateViewSet];
   _viewsets := ∅ |}.

(** The body of a class statement: the attributes it assigns. *)
Record ClassBody := {
body_name : string;
body_use_case : option string;
body_queryset : option Model;
body_serializer_class : option SerializerRef
}.

(** The attributes of [class name(base): body] before
  [__init_subclass__] runs. *)
Definition inherit (base : ViewSetClass) (body : ClassBody) : ViewSetClass :=
{| cls_name := body_name body;
   use_case := default (use_case base) (body_use_case body);
   queryset := match body_queryset body with
               | Some m => Some m
               | None => queryset base
               end;
   serializer_class := match body_serializer_class body with
                       | Some s => Some s
                       | None => serializer_class base
                       end;
   _possible_fields := _possible_fields base |}.

(** [use_case + model.__name__ + "ViewSet"] *)
Definition view_set_key (schema : Schema) (use_case : string) (model : Model) : string :=
use_case +:+ name_of schema model +:+ "ViewSet".

(** [__init_subclass__(cls)] *)
Definition __init_subclass__ (schema : Schema) (cls : nat) (st : State) : State :=
match classes st !! cls with
| Some c =>
    match queryset c with
    | Some model =>
        let c' :=
          {| cls_name := cls_name c;
             use_case := use_case c;
             queryset := queryset c;
             serializer_class :=
               match serializer_class c with
               | None => Some (Generated model (use_case c))
               | Some s => Some s
               end;
             _possible_fields := Some (possible_fields_of schema model []) |} in
        {| classes := <[ cls := c' ]> (classes st);
           _viewsets := <[ view_set_key schema (use_case c) model := cls ]>
                          (_viewsets st) |}
    | None => st
    end
| None => st
end.

(** [class name(base): body]: a new class object, then
  [__init_subclass__] on it. *)
Definition class_statement (schema : Schema) (base : ViewSetClass) (body : ClassBody)
  (st : State) : nat * State :=
let cls := length (classes st) in
(cls, __init_subclass__ schema cls
        {| classes := classes st ++ [inherit base body];
           _viewsets := _viewsets st |}).

(** [cls.__name__ = name] *)
Definition set_name (cls : nat) (name : string) (st : State) : State :=
{| classes := alter (λ c, {| cls_name := name;
                             use_case := use_case c;
                             queryset := queryset c;
                             serializer_class := serializer_class c;
                             _possible_fields := _possible_fields c |})
                    cls (classes st);
   _viewsets := _viewsets st |}.

(** [cls.get_view_set_class(model, use_case)] *)
Definition get_view_set_class (schema : Schema) (cls : ViewSetClass) (model : Model)
  (use_case : string) (st : State) : result nat * State :=
let view_set_name := view_set_key schema use_case model in
let st :=
  match _viewsets st !! view_set_name with
  | Some _ => st
  | None =>
      let '(common, st) :=
        class_statement schema cls
          {| body_name := "CommonViewSet";
             body_use_case := Some use_case;
             body_queryset := Some model;
             body_serializer_class := None |} st in
      set_name common view_set_name st
  end in
(match _viewsets st !! view_set_name with
 | Some found => ret found
 | None => raise (KeyError view_set_name)
 end, st).

(** A route: the prefix, the view-set and the basename of one
    [router.register(prefix, viewset, basename=basename)] call. *)
Abbreviation Route := (string * nat * string)%type.

(** [cls.init_router(router, models)]. [register] is the router's own
    [register] method, a call into the framework that gives the router
    with the route added or raises; the loop ends at the first call that
    raises. *)
Fixpoint init_router {R : Type} (register : R → Route → result R) (schema : Schema)
    (cls : ViewSetClass) (router : R) (models : list Model) (st : State)
  : result R * State :=
  match models with
  | [] => (ret router, st)
  | model :: models' =>
      match get_view_set_class schema cls model EmptyString st with
      | (inl e, st) => (raise e, st)
      | (inr view_set, st) =>
          match register router (name_of schema model, view_set, name_of schema model) with
          | inl e => (raise e, st)
          | inr router => init_router register schema cls router models' st
          end
      end
  end.

(** Registering a series of routes, up to the first that raises. *)
Fixpoint register_all {R : Type} (register : R → Route → result R) (router : R)
    (routes : list Route) : result R :=
  match routes with
  | [] => ret router
  | route :: routes' =>
      bind (register router route) (λ router, register_all register router routes')
  end.

(** A request for a view-set: the class asked, the model, the use case. *)
Abbreviation Lookup := (ViewSetClass * Model * string)%type.

(** The state after a series of [get_view_set_class] calls. *)
Definition run_lookups (schema : Schema) (lookups : list Lookup) (st : State) : State :=
foldl (λ st l, (get_view_set_class schema l.1.1 l.1.2 l.2 st).2) st lookups.

(** The key a class was registered under, when it has a queryset. *)
Definition key_of_class (schema : Schema) (c : ViewSetClass) : option string :=
match queryset c with
| Some model => Some (view_set_key schema (use_case c) model)
| None => None
end.

End Registry.

(** ** The nested write *)

Module NestedWrite.
Import Exc Walker.

Inductive Cardinality := ToOne | ToMany.

Abbreviation Scalars := (list (string * string)).

(** A write graph: a node has an entity type, the identity of the
  record to update if any, scalar values, and child graphs keyed by
  relation name. *)
Inductive WriteGraph : Type :=
| Node (entity_type : Model) (pk : option nat) (scalars : Scalars) (children : Children)
with Children : Type :=
| NoChild
| Child (relation : string) (kind : Cardinality) (payload : WriteGraph) (rest : Children).

(** A persisted record: its identity is its position in storage. *)
Record Stored := {
stored_type : Model;
stored_fields : Scalars;
stored_links : list (string * nat)
}.

Abbreviation Storage := (list Stored).

(** A place in a write graph: relation names from the root, each with
  the position of the child among its siblings. *)
Abbreviation Path := (list (string * nat)).

Fixpoint nth_child (cs : Children) (i : nat) : option (string * WriteGraph) :=
match cs, i with
| NoChild, _ => None
| Child relation _ payload _, 0 => Some (relation, payload)
| Child _ _ _ rest, S i' => nth_child rest i'
end.

(** The entity type and scalar values of the node at a path. *)
Fixpoint node_at (path : Path) (g : WriteGraph) : option (Model * Scalars) :=
match path, g with
| [], Node entity_type _ scalars _ => Some (entity_type, scalars)
| (relation, i) :: path', Node _ _ _ children =>
    match nth_child children i with
    | Some (relation', payload) =>
        if String.eqb relation relation' then node_at path' payload else None
    | None => None
    end
end.

(** The payload read as a graph rooted at [root_type]. *)
Definition rooted (root_type : Model) (payload : WriteGraph) : WriteGraph :=
match payload with
| Node _ pk scalars children => Node root_type pk scalars children
end.

(** Insert, or update the record [pk] names when it exists. *)
Definition persist (entity_type : Model) (pk : option nat) (scalars : Scalars)
  (links : list (string * nat)) (st : Storage) : nat * Storage :=
let record := {| stored_type := entity_type; stored_fields := scalars;
                 stored_links := links |} in
match pk with
| Some i => if Nat.ltb i (length st) then (i, <[ i := record ]> st)
            else (length st, st ++ [record])
| None => (length st, st ++ [record])
end.

(** Associate a child to its parent. *)
Definition associate (parent : nat) (relation : string) (child : nat) (st : Storage)
: Storage :=
alter (λ r, {| stored_type := stored_type r; stored_fields := stored_fields r;
               stored_links := stored_links r ++ [(relation, child)] |})
      parent st.

Section Engine.
(** The validator: the names of the fields it rejects. *)
Variable validate : Model → Scalars → list string.
(** The caller's policy for invalid values when nothing is raised. *)
Variable coerce : Model → Scalars → Scalars.

(** Field validation of one node. *)
Definition check (raise_on_invalid : bool) (path : Path) (entity_type : Model)
(scalars : Scalars) : result Scalars :=
match validate entity_type scalars with
| [] => ret scalars
| fields =>
  if raise_on_invalid then raise (ValidationError path fields)
  else ret (coerce entity_type scalars)
end.

(** Modelled from the spec: the recursive descent of the nested write
engine (section 4.4), whose code, [deep_update_or_create] of the
serializer, is not part of the view-set module. A node is
validated, its to-one children are written first and wired into
it, the node is persisted, then its to-many children are written
with the parent's identity injected and associated to it. *)
Fixpoint upsert (raise_on_invalid : bool) (path : Path)
(inject : list (string * nat)) (g : WriteGraph) (st : Storage)
: result (nat * Storage) :=
match g with
| Node entity_type pk scalars children =>
  bind (check raise_on_invalid path entity_type scalars) (λ scalars,
  bind (upsert_to_one raise_on_invalid path 0 children st) (λ wired,
  let stored := persist entity_type pk scalars (inject ++ wired.1) wired.2 in
  bind (upsert_to_many raise_on_invalid path 0 stored.1 children stored.2)
       (λ st, ret (stored.1, st))))
end
with upsert_to_one (raise_on_invalid : bool) (path : Path) (i : nat)
(cs : Children) (st : Storage) : result (list (string * nat) * Storage) :=
match cs with
| NoChild => ret ([], st)
| Child relation ToOne payload rest =>
  bind (upsert raise_on_invalid (path ++ [(relation, i)]) [] payload st)
       (λ child,
  bind (upsert_to_one raise_on_invalid path (S i) rest child.2) (λ wired,
  ret ((relation, child.1) :: wired.1, wired.2)))
| Child _ ToMany _ rest => upsert_to_one raise_on_invalid path (S i) rest st
end
with upsert_to_many (raise_on_invalid : bool) (path : Path) (i : nat)
(parent : nat) (cs : Children) (st : Storage) : result Storage :=
match cs with
| NoChild => ret st
| Child relation ToMany payload rest =>
  bind (upsert raise_on_invalid (path ++ [(relation, i)])
               [(relation, parent)] payload st) (λ child,
  upsert_to_many raise_on_invalid path (S i) parent rest
                 (associate parent relation child.1 child.2))
| Child _ ToOne _ rest => upsert_to_many raise_on_invalid path (S i) parent rest st
end.

(** Modelled from the spec: [deep_update_or_create(model, data,
raise_exception)] of the serializer, absent from the view-set
module: the whole descent is one transaction, so a failure leaves
storage as it was. *)
Definition deep_update_or_create (model : Model) (data : WriteGraph)
(raise_exception : bool) (st : Storage) : result nat * Storage :=
match upsert raise_exception [] [] (rooted model data) st with
| inl e => (inl e, st)
| inr written => (inr written.1, written.2)
end.

(** Some node of the graph fails field validation. *)
Fixpoint has_invalid (g : WriteGraph) : bool :=
match g with
| Node entity_type _ scalars children =>
  match validate entity_type scalars with
  | [] => any_invalid children
  | _ => true
  end
end
with any_invalid (cs : Children) : bool :=
match cs with
| NoChild => false
| Child _ _ payload rest => has_invalid payload || any_invalid rest
end.

(** [Response(data, status)] *)
Record Response := { data : nat; status : nat }.

(** [deep_create(self, request)] *)
Definition deep_create (py : PyStr.Interpreter) (request : Shaper.QueryParams)
(serializer_class : Shaper.SerializerClass) (model : Model)
(request_data : WriteGraph) (st : Storage) : result Response * Storage :=
match Shaper.get_serializer py (Some request) serializer_class with
| inl e => (inl e, st)
| inr _ =>
  match deep_update_or_create model request_data true st with
  | (inl e, st') => (inl e, st')
  | (inr written, st') => (inr {| data := written; status := 201 |}, st')
  end
end.
End Engine.

End NestedWrite.

(** ** Chains of relations *)

Module Chains.
Import Walker.

(** ['__'.join(segments)] *)
Fixpoint join_path (segments : list string) : string :=
match segments with
| [] => EmptyString
| [a] => a
| a :: rest => join a (join_path rest)
end.

(** The chains of field names the enumeration of [m] under [excludes]
  follows: each field's related model is not excluded where the field
  is read, and every field but the last is a relation, which is
  followed with [m] added to the excluded models. *)
Fixpoint walk (schema : Schema) (m : Model) (excludes : list Model)
  (segments : list string) : Prop :=
match segments with
| [] => False
| a :: rest =>
    ∃ f, f ∈ fields_of schema m ∧ name f = a ∧
         not_in (related_model f) excludes = true ∧
         match rest with
         | [] => True
         | _ => ∃ t, related_model f = Some t ∧
                     walk schema t (excludes ++ [m]) rest
         end
end.

End Chains.

(** ** Joining what [split] cut *)

Module PyJoin.

(** [sep.join(pieces)] for a one-character separator. *)
Fixpoint join_sep (sep : Ascii.ascii) (pieces : list string) : string :=
match pieces with
| [] => EmptyString
| [w] => w
| w :: rest => w +:+ String sep (join_sep sep rest)
end.

(** The separator occurs in the string. *)
Fixpoint contains (sep : Ascii.ascii) (s : string) : bool :=
match s with
| EmptyString => false
| String c r => Ascii.eqb c sep || contains sep r
end.

(** [s.count(sep)] *)
Fixpoint count (sep : Ascii.ascii) (s : string) : nat :=
match s with
| EmptyString => 0
| String c r => (if Ascii.eqb c sep then 1 else 0) + count sep r
end.

End PyJoin.

(** ** Series of class statements and lookups *)

Module Events.
Import Walker Registry.

(** What a program does to the registry: it defines a view-set class or
  asks for one. *)
Inductive Event :=
| ClassStatement (base : ViewSetClass) (body : ClassBody)
| GetViewSetClass (cls : ViewSetClass) (model : Model) (use_case : string).

Definition step (schema : Schema) (st : State) (ev : Event) : State :=
match ev with
| ClassStatement base body => (class_statement schema base body st).2
| GetViewSetClass cls model use_case =>
    (get_view_set_class schema cls model use_case st).2
end.

Definition run (schema : Schema) (events : list Event) (st : State) : State :=
foldl (step schema) st events.

End Events.
(** ** Sample schemas *)

Module Samples.
Import Walker.

Definition scalar (n : string) : Field := {| name := n; related_model := None |}.
Definition relation (n : string) (target : Model) : Field :=
{| name := n; related_model := Some target |}.

Definition A : Model := 0.
Definition B : Model := 1.

(** One model with a foreign key to itself. *)
Definition tree : Schema :=
{[ A := {| __name__ := "Node"; get_fields := [scalar "name"; relation "parent" A] |} ]}.

(** Two models referring to each other. *)
Definition mutual : Schema :=
{[ A := {| __name__ := "Author"; get_fields := [scalar "name"; relation "book" B] |};
   B := {| __name__ := "Book"; get_fields := [scalar "title"; relation "author" A] |} ]}.

(** Two models, each with a foreign key to itself, the first also
  referring to the second. *)
Definition two_trees : Schema :=
{[ A := {| __name__ := "Folder";
           get_fields := [relation "parent" A; relation "b" B] |};
   B := {| __name__ := "Tag";
           get_fields := [relation "bparent" B; relation "a" A] |} ]}.

End Samples.

(** ** Sample requests *)

Module Requests.
Import Shaper.

(** A serializer class over author, profile and comment relations. *)
Definition blog : SerializerClass :=
{| original_depth := 2;
   _all_related_paths := {[ "author"; "author__profile"; "comments" ]} |}.

(** [?exclude=auth] *)
Definition exclude_auth : QueryParams := {[ "exclude" := "auth" ]}.

(** [?depth=1&author=3&nonexistent_field=x&order_by=title,bogus,author] *)
Definition mixed : QueryParams :=
{[ "depth" := "1"; "author" := "3"; "nonexistent_field" := "x";
   "order_by" := "title,bogus,author" ]}.

(** The manager of a model: nothing optimized, filtered or ordered yet. *)
Definition objects : QuerySet :=
{| eager_paths := None; filter_calls := []; ordering := [] |}.
End Requests.

(** ** Sample view-sets *)

Module ViewSets.
Import Walker Registry.

(** [class BookViewSet(DeepViewSet): queryset = Book.objects] *)
Definition BookViewSet : ClassBody :=
{| body_name := "BookViewSet"; body_use_case := None;
   body_queryset := Some Samples.B; body_serializer_class := None |}.

(** [class AuditedBookViewSet(BookViewSet): pass] *)
Definition AuditedBookViewSet : ClassBody :=
{| body_name := "AuditedBookViewSet"; body_use_case := None;
   body_queryset := None; body_serializer_class := None |}.
End ViewSets.

(** ** Sample write *)

Module Writes.
Import Walker NestedWrite.

(** A validator that rejects an empty title. *)
Definition title_required (entity_type : Model) (scalars : Scalars) : list string :=
if bool_decide (("title", EmptyString) ∈ scalars) then ["title"] else [].

(** Nothing is coerced. *)
Definition keep (entity_type : Model) (scalars : Scalars) : Scalars := scalars.

(** An author with two books, the second without a title. *)
Definition author_with_books : WriteGraph :=
Node Samples.A None [("name", "Ann")]
  (Child "book" ToMany (Node Samples.B None [("title", "One")] NoChild)
  (Child "book" ToMany (Node Samples.B None [("title", EmptyString)] NoChild)
   NoChild)).
End Writes.

(** ** Two models of one name *)

Module Homonyms.
Import Walker.

(** Two applications each declare a model called [Item]. *)
Definition shop : Schema :=
{[ Samples.A := {| __name__ := "Item"; get_fields := [Samples.scalar "price"] |};
   Samples.B := {| __name__ := "Item"; get_fields := [Samples.scalar "weight"] |} ]}.
End Homonyms.

(** ** A sample interpreter *)

Module Interpreters.

(** An interpreter with the default limit of 4300 digits. The sample
    requests are ASCII, so what it answers beyond ASCII is never asked. *)
Definition cpython : PyStr.Interpreter :=
  {| PyStr.int_max_str_digits := 4300; PyStr.int_non_ascii := λ _, None |}.
End Interpreters.

(** ** Sample routers *)

Module Routers.
Import Exc Registry.

(** A router that keeps the routes it is given and accepts every one. *)
Definition keep_all (router : list Route) (route : Route) : result (list Route) :=
  ret (router ++ [route]).

(** A router that refuses a basename it already has. *)
Definition unique_basename (router : list Route) (route : Route)
  : result (list Route) :=
  if existsb (λ known, String.eqb known.2 route.2) router
  then raise (ImproperlyConfigured route.2)
  else ret (router ++ [route]).
End Routers.

Module WalkerFacts.
Import Walker.

Section Loop.
Context {A B : Type}.
Implicit Types (body : B → A → option B) (l : list A) (acc : B).

Lemma for_each_app body l1 l2 acc :
for_each body (l1 ++ l2) acc = for_each body l1 acc ≫= for_each body l2.
Proof.
revert acc. induction l1 as [|x l1 IH]; intros acc; simpl; [done|].
destruct (body acc x) as [acc'|]; simpl; [apply IH | done].
Qed.

Lemma for_each_ext body body' l acc :
(∀ acc' x, x ∈ l → body acc' x = body' acc' x) →
for_each body l acc = for_each body' l acc.
Proof.
revert acc. induction l as [|x l IH]; intros acc Hext; simpl; [done|].
rewrite <- (Hext acc x) by left.
destruct (body acc x) as [acc'|]; simpl; [|done].
apply IH. intros acc'' y Hy. apply Hext. by right.
Qed.

Lemma for_each_is_Some body l acc :
(∀ acc' x, x ∈ l → is_Some (body acc' x)) →
is_Some (for_each body l acc).
Proof.
revert acc. induction l as [|x l IH]; intros acc Hok; simpl; [by eexists|].
destruct (Hok acc x) as [acc' ->]; [left|]. simpl.
apply IH. intros acc'' y Hy. apply Hok. by right.
Qed.
End Loop.

(** What one field contributes to the enumeration of [m] under [E]. *)
Definition emits (recurse : Model → list Model → option (gset string))
  (m : Model) (E : list Model) (f : Field) (p : string) : Prop :=
not_in (related_model f) E = true ∧
(p = name f ∨
 ∃ t sub q, related_model f = Some t ∧ recurse t (E ++ [m]) = Some sub ∧
            q ∈ sub ∧ p = join (name f) q).

Lemma elem_of_visit recurse m E acc f r p :
visit recurse m E acc f = Some r →
p ∈ r ↔ p ∈ acc ∨ emits recurse m E f p.
Proof.
unfold visit, emits. destruct (not_in (related_model f) E) eqn:Hin.
- destruct (related_model f) as [t|] eqn:Ht; simpl.
  + destruct (recurse t (E ++ [m])) as [sub|] eqn:Hsub; simpl; [|done].
    intros [= <-]. rewrite !elem_of_union, elem_of_singleton, elem_of_map.
    split.
    * intros [[?|?]|(q & -> & Hq)]; [by left|right; by auto|].
      right. split; [done|]. right. by exists t, sub, q.
    * intros [?|[_ [->|(t' & sub' & q & [= <-] & Hs & Hq & ->)]]]; [by auto|by auto|].
      right. exists q. split; [done|]. congruence.
  + intros [= <-]. rewrite elem_of_union, elem_of_singleton. split.
    * intros [?|?]; [by left|right; by auto].
    * intros [?|[_ [->|(t' & sub' & q & ? & _)]]]; [by auto|by auto|done].
- intros [= <-]. split; [by left|]. intros [?|[? _]]; done.
Qed.

Lemma elem_of_for_each_visit recurse m E l acc r p :
for_each (visit recurse m E) l acc = Some r →
p ∈ r ↔ p ∈ acc ∨ ∃ f, f ∈ l ∧ emits recurse m E f p.
Proof.
revert acc. induction l as [|f l IH]; intros acc; simpl.
- intros [= <-]. split; [by left|]. intros [?|(f & Hf & _)]; [done|].
  by apply elem_of_nil in Hf.
- destruct (visit recurse m E acc f) as [acc'|] eqn:Hv; simpl; [|done].
  intros Hr. rewrite (IH _ Hr), (elem_of_visit _ _ _ _ _ _ p Hv). split.
  + intros [[?|?]|(g & Hg & ?)]; [by left| |].
    * right. exists f. split; [left|done].
    * right. exists g. split; [by right|done].
  + intros [?|(g & Hg & ?)]; [by auto|].
    apply elem_of_cons in Hg as [->|Hg]; [by auto|].
    right. by exists g.
Qed.

(** Membership in the result of one call. *)
Lemma elem_of_build schema fuel m E r p :
build_possible_fields schema (S fuel) m E = Some r →
p ∈ r ↔ ∃ f, f ∈ fields_of schema m ∧
             emits (build_possible_fields schema fuel) m E f p.
Proof.
simpl. intros Hr. rewrite (elem_of_for_each_visit _ _ _ _ _ _ p Hr).
split; [intros [?|?]; [set_solver|done] | by right].
Qed.

(** *** Termination *)

Section Potential.
Variable schema : Schema.
Implicit Types (m t : Model) (E : list Model).

Local Abbreviation U := (entity_types schema).

(** The measure of a call: the entity types not yet excluded, counted
before and after the current model joins the exclusion list. *)
Definition potential m E : nat :=
size (U ∖ list_to_set E) + size (U ∖ (list_to_set E ∪ {[ m ]})).

Lemma declared_in_universe m c : schema !! m = Some c → m ∈ U.
Proof.
intros Hm. apply elem_of_union_l, elem_of_dom. by exists c.
Qed.

Lemma target_in_universe m c f t :
schema !! m = Some c → f ∈ get_fields c → related_model f = Some t → t ∈ U.
Proof.
intros Hm Hf Ht. apply elem_of_union_r, elem_of_union_list.
exists (targets c). split.
- apply list_elem_of_fmap. exists (m, c). split; [done|].
by apply elem_of_map_to_list.
- unfold targets. apply elem_of_list_to_set, list_elem_of_omap. by exists f.
Qed.

Lemma fields_of_Some m f :
f ∈ fields_of schema m → ∃ c, schema !! m = Some c ∧ f ∈ get_fields c.
Proof.
unfold fields_of. destruct (schema !! m) as [c|]; [by exists c|].
intros Hf. by apply elem_of_nil in Hf.
Qed.

Lemma potential_decreases m t E :
m ∈ U → t ∈ U → t ∉ E → potential t (E ++ [m]) < potential m E.
Proof.
intros Hm Ht HtE. unfold potential.
rewrite list_to_set_app_L, list_to_set_singleton.
assert (size (U ∖ (list_to_set E ∪ {[m]})) ≤ size (U ∖ list_to_set E))
by (apply subseteq_size; set_solver).
assert (size (U ∖ (list_to_set E ∪ {[m]} ∪ {[t]})) < size (U ∖ list_to_set E)).
{ apply subset_size. split; [set_solver|].
intros Hsub. specialize (Hsub t). set_solver. }
lia.
Qed.

Lemma not_in_Some t E : not_in (Some t) E = true ↔ t ∉ E.
Proof. unfold not_in. by rewrite bool_decide_eq_true. Qed.

(** A call returns as soon as the fuel exceeds its potential. *)
Lemma build_returns fuel m E :
potential m E < fuel → is_Some (build_possible_fields schema fuel m E).
Proof.
revert m E. induction fuel as [|fuel IH]; intros m E Hlt; [lia|]. simpl.
apply for_each_is_Some. intros acc f Hf.
apply fields_of_Some in Hf as (c & Hm & Hf).
unfold visit. destruct (not_in (related_model f) E) eqn:Hin; [|by eexists].
destruct (related_model f) as [t|] eqn:Ht; [|by eexists].
apply not_in_Some in Hin.
destruct (IH t (E ++ [m])) as [sub ->]; [|by eexists].
pose proof (potential_decreases m t E (declared_in_universe _ _ Hm)
            (target_in_universe _ _ _ _ Hm Hf Ht) Hin). lia.
Qed.

Lemma potential_bound m E : potential m E < enough_fuel schema.
Proof.
unfold potential, enough_fuel.
assert (size (U ∖ list_to_set E) ≤ size U) by (apply subseteq_size; set_solver).
assert (size (U ∖ (list_to_set E ∪ {[m]})) ≤ size U)
by (apply subseteq_size; set_solver).
lia.
Qed.

(** More fuel never changes a result. *)
Lemma build_fuel_mono fuel fuel' m E r :
build_possible_fields schema fuel m E = Some r → fuel ≤ fuel' →
build_possible_fields schema fuel' m E = Some r.
Proof.
revert fuel' m E r. induction fuel as [|fuel IH]; intros fuel' m E r; [done|].
destruct fuel' as [|fuel']; [lia|]. simpl. intros Hr Hle.
rewrite <- Hr. symmetry.
assert (∀ l acc r',
for_each (visit (build_possible_fields schema fuel) m E) l acc = Some r' →
for_each (visit (build_possible_fields schema fuel') m E) l acc = Some r')
as Hloop.
{ clear Hr r. induction l as [|f l IHl]; intros acc r'; simpl; [done|].
destruct (visit (build_possible_fields schema fuel) m E acc f)
  as [acc'|] eqn:Hv; simpl; [|done].
intros Hr'. assert (visit (build_possible_fields schema fuel') m E acc f
                    = Some acc') as ->; [|by apply IHl].
revert Hv. unfold visit. destruct (not_in (related_model f) E); [|done].
destruct (related_model f) as [t|]; [|done].
destruct (build_possible_fields schema fuel t (E ++ [m])) as [sub|] eqn:Hs;
  simpl; [|done].
rewrite (IH fuel' t (E ++ [m]) sub Hs) by lia. done. }
rewrite Hr. symmetry. by apply Hloop.
Qed.
End Potential.


(** *** Segments of a path *)

Lemma append_cons c (s1 s2 : string) : String c s1 +:+ s2 = String c (s1 +:+ s2).
Proof. done. Qed.

Lemma count_sep_cons c (r : string) :
PyStr.count_sep (String c r) =
  if Ascii.eqb c "_" then
    match r with
    | EmptyString => 0
    | String d r' =>
        if Ascii.eqb d "_" then S (PyStr.count_sep r') else PyStr.count_sep r
    end
  else PyStr.count_sep r.
Proof. done. Qed.

Lemma count_sep_after_name (a q : string) :
PyStr.count_sep a = 0 → PyStr.ends_with_underscore a = false →
PyStr.count_sep (a +:+ String "_" (String "_" q)) = S (PyStr.count_sep q).
Proof.
induction a as [|c r IH]; intros Hc He; [done|].
rewrite append_cons, count_sep_cons. rewrite count_sep_cons in Hc.
destruct (Ascii.eqb c "_") eqn:Hcu; [|apply IH; [done|by destruct r]].
destruct r as [|d r']; [simpl in He; congruence|].
rewrite append_cons. destruct (Ascii.eqb d "_") eqn:Hdu; [done|].
rewrite <- append_cons. by apply IH.
Qed.

Lemma count_sep_join (a q : string) :
PyStr.valid_field_name a = true →
PyStr.count_sep (join a q) = S (PyStr.count_sep q).
Proof.
unfold PyStr.valid_field_name, join.
rewrite andb_true_iff, Nat.eqb_eq, negb_true_iff. intros [Hc He].
by apply count_sep_after_name.
Qed.

Lemma segment_count_join (a q : string) :
PyStr.valid_field_name a = true →
PyStr.segment_count (join a q) = S (PyStr.segment_count q).
Proof. intros Ha. unfold PyStr.segment_count. by rewrite count_sep_join. Qed.

Lemma segment_count_name (a : string) :
PyStr.valid_field_name a = true → PyStr.segment_count a = 1.
Proof.
unfold PyStr.valid_field_name, PyStr.segment_count.
rewrite andb_true_iff, Nat.eqb_eq. by intros [-> _].
Qed.

Lemma all_fields_lookup check (schema : Schema) m c f :
all_fields check schema = true →
schema !! m = Some c → f ∈ get_fields c → check m f = true.
Proof.
unfold all_fields. rewrite forallb_forall. intros Hall Hm Hf.
specialize (Hall (m, c)). simpl in Hall. rewrite forallb_forall in Hall.
apply Hall.
- apply list_elem_of_In. by apply elem_of_map_to_list.
- by apply list_elem_of_In.
Qed.

Section Bounds.
Variable schema : Schema.
Hypothesis Hvalid : valid_names schema = true.

Local Abbreviation U := (entity_types schema).

Lemma field_name_valid m f :
f ∈ fields_of schema m → PyStr.valid_field_name (name f) = true.
Proof.
intros Hf. apply fields_of_Some in Hf as (c & Hm & Hf).
by apply (all_fields_lookup _ _ _ _ _ Hvalid Hm Hf).
Qed.

(** A path is never longer than the potential of the call allows. *)
Lemma segment_count_potential fuel m E r p :
build_possible_fields schema fuel m E = Some r → p ∈ r →
PyStr.segment_count p ≤ S (potential schema m E).
Proof.
revert m E r p. induction fuel as [|fuel IH]; intros m E r p Hr Hp; [done|].
apply (elem_of_build _ _ _ _ _ p Hr) in Hp as (f & Hf & Hin & Hp).
pose proof (field_name_valid _ _ Hf) as Hname.
destruct Hp as [->|(t & sub & q & Ht & Hsub & Hq & ->)].
- rewrite segment_count_name by done. lia.
- rewrite segment_count_join by done.
rewrite Ht in Hin. apply not_in_Some in Hin.
apply fields_of_Some in Hf as (c & Hm & Hf).
pose proof (potential_decreases schema m t E (declared_in_universe _ _ _ Hm)
              (target_in_universe _ _ _ _ _ Hm Hf Ht) Hin).
pose proof (IH _ _ _ _ Hsub Hq). lia.
Qed.

(** Without self-reference the model of a call is never excluded yet,
and a path is no longer than the number of models still free. *)
Lemma segment_count_free fuel m E r p :
no_self_reference schema = true → m ∉ E →
build_possible_fields schema fuel m E = Some r → p ∈ r →
PyStr.segment_count p ≤ size (U ∖ list_to_set E).
Proof.
intros Hno. revert m E r p.
induction fuel as [|fuel IH]; intros m E r p HmE Hr Hp; [done|].
apply (elem_of_build _ _ _ _ _ p Hr) in Hp as (f & Hf & Hin & Hp).
pose proof (field_name_valid _ _ Hf) as Hname.
apply fields_of_Some in Hf as (c & Hm & Hf).
pose proof (declared_in_universe _ _ _ Hm) as HmU.
assert (size (U ∖ (list_to_set E ∪ {[m]})) < size (U ∖ list_to_set E)) as Hlt.
{ apply subset_size. split; [set_solver|].
intros Hsub. specialize (Hsub m). set_solver. }
destruct Hp as [->|(t & sub & q & Ht & Hsub & Hq & ->)].
- rewrite segment_count_name by done. lia.
- rewrite segment_count_join by done.
rewrite Ht in Hin. apply not_in_Some in Hin.
pose proof (all_fields_lookup _ _ _ _ _ Hno Hm Hf) as Hself.
apply bool_decide_eq_true in Hself.
assert (t ∉ E ++ [m]) as HtE.
{ rewrite elem_of_app, list_elem_of_singleton. intros [HE|Heq]; [done|]. subst t. congruence. }
pose proof (IH _ _ _ _ HtE Hsub Hq) as Hq'.
rewrite list_to_set_app_L, list_to_set_singleton in Hq'. lia.
Qed.
End Bounds.

(** C7 (as stated fails). With two self-referencing models the
  enumeration returns a path of three segments, all of them relations,
  although the schema has two entity types. *)
Lemma path_longer_than_entity_types :
possible_fields_of Samples.two_trees Samples.A [] =
  {[ "parent"; "parent__b"; "parent__b__bparent"; "b"; "b__bparent" ]} ∧
build_possible_fields Samples.two_trees 5 Samples.A [] =
  Some (possible_fields_of Samples.two_trees Samples.A []) ∧
valid_names Samples.two_trees = true ∧
size (entity_types Samples.two_trees) = 2 ∧
PyStr.segment_count "parent__b__bparent" = 3 ∧
¬ (∀ schema fuel root r p,
     build_possible_fields schema fuel root [] = Some r → p ∈ r →
     PyStr.segment_count p ≤ size (entity_types schema)).
Proof.
assert (possible_fields_of Samples.two_trees Samples.A [] =
  {[ "parent"; "parent__b"; "parent__b__bparent"; "b"; "b__bparent" ]}) as Hp
  by (vm_compute; reflexivity).
split; [done|]. split; [vm_compute; reflexivity|].
split; [vm_compute; reflexivity|]. split; [vm_compute; reflexivity|].
split; [reflexivity|]. intros Hclaim.
specialize (Hclaim Samples.two_trees 5 Samples.A
              (possible_fields_of Samples.two_trees Samples.A []) "parent__b__bparent").
assert (3 ≤ 2) as Habs; [|lia].
apply Hclaim; [vm_compute; reflexivity|].
rewrite Hp. set_solver.
Qed.

(** C7 (amended). When field names are valid Django field names, every
  path returned by the enumeration has at most twice as many segments
  as the schema has entity types, and at most as many as it has
  entity types when no model refers to itself. *)
Theorem path_segments_bounded (schema : Schema) fuel root r p :
valid_names schema = true →
build_possible_fields schema fuel root [] = Some r → p ∈ r →
PyStr.segment_count p ≤ 2 * size (entity_types schema) ∧
(no_self_reference schema = true →
 PyStr.segment_count p ≤ size (entity_types schema)).
Proof.
intros Hvalid Hr Hp. split.
- pose proof (segment_count_potential schema Hvalid _ _ _ _ _ Hr Hp) as Hle.
  destruct fuel as [|fuel]; [done|].
  apply (elem_of_build _ _ _ _ _ p Hr) in Hp as (f & Hf & _).
  apply fields_of_Some in Hf as (c & Hm & _).
  pose proof (declared_in_universe _ _ _ Hm) as Hroot.
  unfold potential in Hle. simpl in Hle.
  assert (size (entity_types schema ∖ (∅ ∪ {[root]})) < size (entity_types schema)).
  { apply subset_size. split; [set_solver|].
    intros Hsub. specialize (Hsub root). set_solver. }
  assert (size (entity_types schema ∖ ∅) ≤ size (entity_types schema))
    by (apply subseteq_size; set_solver).
  lia.
- intros Hno.
  pose proof (segment_count_free schema Hvalid _ _ _ _ _ Hno
                (not_elem_of_nil root) Hr Hp) as Hle.
  assert (size (entity_types schema ∖ list_to_set []) ≤ size (entity_types schema))
    by (apply subseteq_size; set_solver).
  lia.
Qed.

Lemma path_segments_bounded_witness :
PyStr.segment_count "parent__b__bparent" ≤ 2 * size (entity_types Samples.two_trees) ∧
(no_self_reference Samples.two_trees = true →
 PyStr.segment_count "parent__b__bparent" ≤ size (entity_types Samples.two_trees)).
Proof.
apply (path_segments_bounded Samples.two_trees 5 Samples.A
         (possible_fields_of Samples.two_trees Samples.A [])).
- vm_compute. reflexivity.
- vm_compute. reflexivity.
- apply (bool_decide_unpack _). vm_compute. exact I.
Defined.

(** *** Relations to an excluded model *)

Lemma visit_excluded recurse m E acc f t :
related_model f = Some t → t ∈ E → visit recurse m E acc f = Some acc.
Proof.
intros Ht HtE. unfold visit. rewrite Ht. simpl.
rewrite bool_decide_eq_false_2; [done|]. by intros Hn.
Qed.

Lemma visit_ext recurse recurse' m E acc f :
(∀ t, recurse t (E ++ [m]) = recurse' t (E ++ [m])) →
visit recurse m E acc f = visit recurse' m E acc f.
Proof.
intros Hext. unfold visit. destruct (not_in (related_model f) E); [|done].
destruct (related_model f) as [t|]; [|done]. by rewrite Hext.
Qed.

Lemma for_each_skip {A B : Type} (body : B → A → option B) l1 x l2 acc :
(∀ acc', body acc' x = Some acc') →
for_each body (l1 ++ x :: l2) acc = for_each body (l1 ++ l2) acc.
Proof.
intros Hskip. rewrite !for_each_app.
destruct (for_each body l1 acc) as [acc'|]; simpl; [|done].
by rewrite Hskip.
Qed.

(** Deleting from a model a relation whose target is excluded changes
  no call that excludes that target. *)
Lemma build_without_excluded (schema : Schema) m c l1 f l2 t :
schema !! m = Some c → get_fields c = l1 ++ f :: l2 → related_model f = Some t →
∀ fuel m' E, t ∈ E →
  build_possible_fields schema fuel m' E =
  build_possible_fields
    (<[ m := {| __name__ := __name__ c; get_fields := l1 ++ l2 |} ]> schema)
    fuel m' E.
Proof.
intros Hm Hc Ht. induction fuel as [|fuel IH]; intros m' E HtE; [done|]. simpl.
rewrite (for_each_ext _ (visit (build_possible_fields
   (<[ m := {| __name__ := __name__ c; get_fields := l1 ++ l2 |} ]> schema) fuel) m' E)).
2:{ intros acc x _. apply visit_ext. intros t'. apply IH.
    apply elem_of_app. by left. }
unfold fields_of. destruct (decide (m' = m)) as [->|Hne].
- rewrite lookup_insert_eq, Hm, Hc. simpl. apply for_each_skip.
  intros acc. by apply visit_excluded with t.
- by rewrite lookup_insert_ne.
Qed.

(** C2 (as stated fails). In the schema of two models referring to each
  other, the enumeration of the first model calls the enumeration of
  the second with the first excluded; the relation of the second back
  to the first is then not emitted at all. *)
Lemma ancestor_relation_not_emitted :
Samples.relation "author" Samples.A ∈ fields_of Samples.mutual Samples.B ∧
Samples.A ∈ [] ++ [Samples.A] ∧
build_possible_fields Samples.mutual 5 Samples.B ([] ++ [Samples.A]) =
  Some {[ "title" ]} ∧
"author" ∉ ({[ "title" ]} : gset string) ∧
build_possible_fields Samples.mutual 5 Samples.A [] =
  Some {[ "name"; "book"; "book__title" ]} ∧
"book__author" ∉ ({[ "name"; "book"; "book__title" ]} : gset string) ∧
¬ (∀ schema fuel m E f t r,
     f ∈ fields_of schema m → related_model f = Some t → t ∈ E →
     build_possible_fields schema fuel m E = Some r → name f ∈ r).
Proof.
assert (Samples.relation "author" Samples.A ∈ fields_of Samples.mutual Samples.B)
  as Hf by (vm_compute; set_solver).
assert (Samples.A ∈ [] ++ [Samples.A]) as HA by set_solver.
assert (build_possible_fields Samples.mutual 5 Samples.B ([] ++ [Samples.A]) =
          Some {[ "title" ]}) as Hb by (vm_compute; reflexivity).
assert ("author" ∉ ({[ "title" ]} : gset string)) as Hn
  by (by intros ?%elem_of_singleton).
split; [done|]. split; [done|]. split; [done|]. split; [done|].
split; [vm_compute; reflexivity|]. split.
- apply (bool_decide_unpack _). vm_compute. exact I.
- intros Hclaim. apply Hn.
  by apply (Hclaim Samples.mutual 5 Samples.B ([] ++ [Samples.A])
              (Samples.relation "author" Samples.A) Samples.A).
Qed.

(** C2 (amended). A relation whose target entity type is already in the
  exclusion list is skipped altogether: the loop body leaves the
  accumulated set as it is, so neither the single-segment path nor any
  expansion is emitted for it, and the enumeration returns what it
  returns for the schema without that relation. *)
Theorem excluded_relation_is_skipped (schema : Schema) fuel m c l1 f l2 t E :
schema !! m = Some c → get_fields c = l1 ++ f :: l2 →
related_model f = Some t → t ∈ E →
(∀ acc, visit (build_possible_fields schema fuel) m E acc f = Some acc) ∧
build_possible_fields schema fuel m E =
build_possible_fields
  (<[ m := {| __name__ := __name__ c; get_fields := l1 ++ l2 |} ]> schema)
  fuel m E.
Proof.
intros Hm Hc Ht HtE. split.
- intros acc. by apply visit_excluded with t.
- by apply build_without_excluded with f t.
Qed.

Lemma excluded_relation_is_skipped_witness :
(∀ acc, visit (build_possible_fields Samples.mutual 5) Samples.B [Samples.A] acc
          (Samples.relation "author" Samples.A) = Some acc) ∧
build_possible_fields Samples.mutual 5 Samples.B [Samples.A] =
build_possible_fields
  (<[ Samples.B := {| __name__ := "Book";
                      get_fields := [Samples.scalar "title"] ++ [] |} ]>
     Samples.mutual)
  5 Samples.B [Samples.A].
Proof.
apply (excluded_relation_is_skipped Samples.mutual 5 Samples.B
         {| __name__ := "Book";
            get_fields := [Samples.scalar "title"; Samples.relation "author" Samples.A] |}
         [Samples.scalar "title"] (Samples.relation "author" Samples.A) []
         Samples.A [Samples.A]).
- vm_compute. reflexivity.
- reflexivity.
- reflexivity.
- apply (bool_decide_unpack _). vm_compute. exact I.
Defined.
End WalkerFacts.

(** ** Facts about the string operations *)

Module PyStrFacts.
Import PyStr PyJoin.

Lemma split_nonempty sep s : split sep s ≠ [].
Proof.
destruct s as [|c r]; [done|]. simpl.
destruct (Ascii.eqb c sep); [done|]. by destruct (split sep r).
Qed.

Lemma join_sep_cons sep w rest :
  rest ≠ [] → join_sep sep (w :: rest) = w +:+ String sep (join_sep sep rest).
Proof. by destruct rest. Qed.

(** [split] loses nothing: joining the pieces with the separator gives
    the string back, no piece contains the separator, and there is one
    piece more than there are separators. *)
Lemma split_join sep s :
  join_sep sep (split sep s) = s ∧
  Forall (λ piece, contains sep piece = false) (split sep s) ∧
  length (split sep s) = S (count sep s).
Proof.
induction s as [|c r (IHj & IHc & IHl)]; [by repeat constructor|].
simpl. destruct (Ascii.eqb c sep) eqn:Hc.
- apply Ascii.eqb_eq in Hc as ->. split; [|split].
  + rewrite join_sep_cons by apply split_nonempty. by rewrite IHj.
  + by constructor.
  + simpl. by rewrite IHl.
- destruct (split sep r) as [|w ws] eqn:Hs; [by apply split_nonempty in Hs|].
  split; [|split].
  + destruct ws as [|w' ws]; [simpl in *; by rewrite IHj|].
    rewrite join_sep_cons by done. rewrite join_sep_cons in IHj by done.
    rewrite WalkerFacts.append_cons. by rewrite IHj.
  + apply Forall_cons in IHc as [Hw Hws]. constructor; [|done].
    simpl. by rewrite Hc, Hw.
  + simpl in *. done.
Qed.

Lemma contains_append sep (w r : string) : contains sep (w +:+ String sep r) = true.
Proof.
induction w as [|c w IH].
- change (EmptyString +:+ String sep r) with (String sep r). simpl.
  by rewrite Ascii.eqb_refl.
- rewrite WalkerFacts.append_cons. simpl. rewrite IH. apply orb_true_r.
Qed.

Lemma piece_cancel sep (w1 w2 r1 r2 : string) :
  contains sep w1 = false → contains sep w2 = false →
  w1 +:+ String sep r1 = w2 +:+ String sep r2 → w1 = w2 ∧ r1 = r2.
Proof.
revert w2. induction w1 as [|c1 w1 IH]; intros [|c2 w2] H1 H2.
- change (EmptyString +:+ String sep r1) with (String sep r1).
  change (EmptyString +:+ String sep r2) with (String sep r2).
  by intros [= ->].
- change (EmptyString +:+ String sep r1) with (String sep r1).
  rewrite WalkerFacts.append_cons. intros [= <- _]. simpl in H2.
  by rewrite Ascii.eqb_refl in H2.
- change (EmptyString +:+ String sep r2) with (String sep r2).
  rewrite WalkerFacts.append_cons. intros [= -> _]. simpl in H1.
  by rewrite Ascii.eqb_refl in H1.
- rewrite !WalkerFacts.append_cons. intros [= -> Heq]. simpl in H1, H2.
  apply orb_false_iff in H1 as [_ H1]. apply orb_false_iff in H2 as [_ H2].
  destruct (IH w2 H1 H2 Heq) as [-> ->]. done.
Qed.

(** The pieces of a string are determined by what they join to: two
    non-empty lists of pieces free of the separator that join to the same
    string are the same list. *)
Lemma pieces_determined sep (l1 l2 : list string) :
  l1 ≠ [] → l2 ≠ [] →
  Forall (λ piece, contains sep piece = false) l1 →
  Forall (λ piece, contains sep piece = false) l2 →
  join_sep sep l1 = join_sep sep l2 → l1 = l2.
Proof.
revert l2. induction l1 as [|w1 l1 IH]; intros [|w2 l2] Hn1 Hn2 H1 H2; try done.
apply Forall_cons in H1 as [Hw1 H1]. apply Forall_cons in H2 as [Hw2 H2].
destruct l1 as [|v1 l1], l2 as [|v2 l2].
- simpl. by intros ->.
- rewrite (join_sep_cons _ w2) by done. simpl. intros ->.
  by rewrite contains_append in Hw1.
- rewrite (join_sep_cons _ w1) by done. simpl. intros <-.
  by rewrite contains_append in Hw2.
- rewrite (join_sep_cons _ w1), (join_sep_cons _ w2) by done. intros Heq.
  destruct (piece_cancel _ _ _ _ _ Hw1 Hw2 Heq) as [-> Hrest].
  f_equal. by apply IH.
Qed.

(** *** Reading integers *)

Lemma uint_is_ascii u : is_ascii (DecimalString.NilEmpty.string_of_uint u) = true.
Proof. induction u; simpl; by rewrite ?IHu. Qed.

Lemma uint_digit_run u b :
  u ≠ Decimal.Nil ∨ b = true →
  digit_run b (DecimalString.NilEmpty.string_of_uint u)
    = Some (DecimalString.NilEmpty.string_of_uint u).
Proof.
revert b. induction u; intros b Hb;
  [destruct Hb as [?| ->]; done
  | cbn [DecimalString.NilEmpty.string_of_uint digit_run];
    change (is_digit _) with true; cbv iota;
    rewrite IHu by (by right); reflexivity ..].
Qed.

Lemma uint_lstrip u :
  lstrip (DecimalString.NilEmpty.string_of_uint u)
    = DecimalString.NilEmpty.string_of_uint u.
Proof. by destruct u. Qed.

Lemma uint_rstrip u :
  rstrip (DecimalString.NilEmpty.string_of_uint u)
    = DecimalString.NilEmpty.string_of_uint u.
Proof.
induction u; [done
  | cbn [DecimalString.NilEmpty.string_of_uint rstrip]; rewrite IHu;
    by destruct (DecimalString.NilEmpty.string_of_uint u) ..].
Qed.

Lemma uint_split_sign u :
  split_sign (DecimalString.NilEmpty.string_of_uint u)
    = (false, DecimalString.NilEmpty.string_of_uint u).
Proof. by destruct u. Qed.

Lemma int_ascii_uint py u :
  u ≠ Decimal.Nil →
  within_limit py (String.length (DecimalString.NilEmpty.string_of_uint u)) = true →
  int_ascii py (DecimalString.NilEmpty.string_of_uint u) = Some (Z.of_uint u) ∧
  int_ascii py (String "-"%char (DecimalString.NilEmpty.string_of_uint u))
    = Some (Z.opp (Z.of_uint u)).
Proof.
intros Hu Hlimit. unfold int_ascii, strip. split.
- rewrite uint_lstrip, uint_rstrip, uint_split_sign. cbn [fst snd].
  rewrite uint_digit_run by (by left). rewrite Hlimit.
  by rewrite DecimalString.NilEmpty.usu.
- assert (rstrip (lstrip (String "-"%char (DecimalString.NilEmpty.string_of_uint u)))
          = String "-"%char (DecimalString.NilEmpty.string_of_uint u)) as ->.
  { cbn [lstrip]. change (is_space "-") with false. cbv iota.
    cbn [rstrip]. rewrite uint_rstrip.
    by destruct (DecimalString.NilEmpty.string_of_uint u). }
  cbn [split_sign]. change (Ascii.eqb "-" "+") with false.
  change (Ascii.eqb "-" "-") with true. cbv iota. cbn [fst snd].
  rewrite uint_digit_run by (by left). rewrite Hlimit.
  by rewrite DecimalString.NilEmpty.usu.
Qed.

(** [int(str(n))] is [n], as long as [n] has no more digits than the
    interpreter converts. *)
Lemma int_of_str_of_int py n :
  within_limit py (decimal_digits n) = true →
  int_of_str py (str_of_int n) = Some n.
Proof.
unfold decimal_digits, int_of_str. destruct n as [|p|p]; intros Hlimit.
- vm_compute in Hlimit |- *. reflexivity.
- cbn [Z.abs str_of_int] in *. rewrite uint_is_ascii.
  destruct (int_ascii_uint py (Pos.to_uint p)
              (DecimalPos.Unsigned.to_uint_nonnil p) Hlimit) as [-> _].
  unfold Z.of_uint. by rewrite DecimalPos.Unsigned.of_to.
- cbn [Z.abs str_of_int] in *. cbn [is_ascii]. rewrite uint_is_ascii.
  change (Nat.ltb (nat_of_ascii "-") 128) with true. cbn [andb].
  destruct (int_ascii_uint py (Pos.to_uint p)
              (DecimalPos.Unsigned.to_uint_nonnil p) Hlimit) as [_ ->].
  unfold Z.of_uint. by rewrite DecimalPos.Unsigned.of_to.
Qed.

Lemma not_numeric_char c :
  not_numeric c = true →
  is_digit c = false ∧ is_space c = false ∧ Ascii.eqb c "+" = false ∧
  Ascii.eqb c "-" = false ∧ Ascii.eqb c "_" = false.
Proof.
unfold not_numeric. rewrite negb_true_iff, !orb_false_iff. tauto.
Qed.

Lemma any_char_lstrip s :
  any_char not_numeric s = true → any_char not_numeric (lstrip s) = true.
Proof.
induction s as [|c r IH]; [done|]. cbn [lstrip any_char].
destruct (is_space c) eqn:Hs; [|done].
destruct (not_numeric c) eqn:Hc; [|done].
apply not_numeric_char in Hc. destruct Hc as (_ & Hc & _). congruence.
Qed.

Lemma any_char_rstrip s :
  any_char not_numeric s = true → any_char not_numeric (rstrip s) = true.
Proof.
induction s as [|c r IH]; [done|]. cbn [rstrip any_char]. intros Hany.
destruct (any_char not_numeric r) eqn:Hr.
- specialize (IH eq_refl). destruct (rstrip r) as [|d r'] eqn:Hrs; [done|].
  cbn [any_char] in *. rewrite IH. apply orb_true_r.
- rewrite orb_false_r in Hany. pose proof (not_numeric_char c Hany) as (_ & Hs & _).
  destruct (rstrip r) as [|d r']; [rewrite Hs|]; cbn [any_char]; by rewrite Hany.
Qed.

Lemma any_char_split_sign s :
  any_char not_numeric s = true → any_char not_numeric (split_sign s).2 = true.
Proof.
destruct s as [|c r]; [done|]. cbn [split_sign any_char]. intros Hany.
destruct (not_numeric c) eqn:Hc.
- pose proof (not_numeric_char c Hc) as (_ & _ & -> & -> & _).
  cbn [snd any_char]. by rewrite Hc.
- destruct (Ascii.eqb c "+"); [done|]. destruct (Ascii.eqb c "-"); [done|].
  cbn [snd any_char]. by rewrite Hc.
Qed.

Lemma digit_run_not_numeric s b :
  any_char not_numeric s = true → digit_run b s = None.
Proof.
revert b. induction s as [|c r IH]; intros b; [done|]. cbn [any_char digit_run].
destruct (not_numeric c) eqn:Hc.
- intros _. pose proof (not_numeric_char c Hc) as (-> & _ & _ & _ & ->). done.
- intros Hr. simpl in Hr. destruct (is_digit c); [by rewrite IH|].
  destruct (Ascii.eqb c "_" && b); [by apply IH|done].
Qed.

(** An ASCII string that holds a character other than a digit, a sign,
    an underscore or whitespace is no integer. *)
Lemma int_of_str_not_numeric py s :
  is_ascii s = true → any_char not_numeric s = true → int_of_str py s = None.
Proof.
intros Ha Hany. unfold int_of_str, int_ascii, strip. rewrite Ha.
by rewrite digit_run_not_numeric
  by (by apply any_char_split_sign, any_char_rstrip, any_char_lstrip).
Qed.
End PyStrFacts.

(** ** Facts about the query shaper *)

Module ShaperFacts.
Import Exc Shaper.

Lemma prefix_append (e p s : string) :
String.prefix e p = true → String.prefix e (p +:+ s) = true.
Proof.
revert p. induction e as [|c e IH]; intros p.
- intros _. by destruct (p +:+ s).
- destruct p as [|d p]; [done|]. rewrite WalkerFacts.append_cons. simpl.
  destruct (Ascii.ascii_dec c d); [apply IH|done].
Qed.

Lemma any_startswith_true path (excludes : gset string) :
any_startswith path excludes = true ↔
∃ exclude, exclude ∈ excludes ∧ exclude ≠ EmptyString ∧
           PyStr.startswith path exclude = true.
Proof.
unfold any_startswith. rewrite existsb_exists. split.
- intros (e & He & Hs). apply filter_In in He as [He Hne].
  exists e. split; [|split; [|done]].
  + by apply elem_of_elements, list_elem_of_In.
  + intros ->. done.
- intros (e & He & Hne & Hs). exists e. split; [|done].
  apply filter_In. split.
  + by apply list_elem_of_In, elem_of_elements.
  + apply negb_true_iff, String.eqb_neq. done.
Qed.

Lemma any_startswith_false path (excludes : gset string) :
any_startswith path excludes = false ↔
∀ exclude, exclude ∈ excludes → exclude ≠ EmptyString →
           PyStr.startswith path exclude = false.
Proof.
rewrite <- not_true_iff_false, any_startswith_true. split.
- intros Hno e He Hne. apply not_true_iff_false. intros Hs.
  apply Hno. by exists e.
- intros Hall (e & He & Hne & Hs). rewrite (Hall e He Hne) in Hs. done.
Qed.

Lemma elem_of_relations_paths params serializer_class path :
path ∈ relations_paths params serializer_class ↔
path ∈ _all_related_paths serializer_class ∧
any_startswith path (excludes_of params) = false.
Proof. unfold relations_paths. rewrite elem_of_filter. tauto. Qed.

(** Both methods hand over the same comprehension. *)
Lemma get_serializer_ok py params serializer_class depth :
int py (depth_argument params serializer_class) = inr depth →
get_serializer py (Some params) serializer_class =
  inr (DeepSerializer depth (relations_paths params serializer_class)).
Proof. unfold get_serializer. by intros ->. Qed.

Lemma get_queryset_ok py params serializer_class queryset possible depth :
int py (depth_argument params serializer_class) = inr depth →
∃ shaped,
  get_queryset py params serializer_class queryset possible = inr shaped ∧
  eager_paths shaped = Some (relations_paths params serializer_class, depth) ∧
  filter_calls shaped =
    filter_calls queryset ++
      (if bool_decide (filter_by_of params possible = ∅) then []
       else [filter_by_of params possible]) ∧
  ordering shaped =
    match order_by_of params possible with
    | [] => ordering queryset
    | order_by => order_by
    end.
Proof.
unfold get_queryset. intros ->. simpl. eexists. split; [done|].
destruct (bool_decide (filter_by_of params possible = ∅));
  destruct (order_by_of params possible); simpl;
  rewrite ?app_nil_r; done.
Qed.

Lemma get_queryset_raises py params serializer_class queryset possible e :
int py (depth_argument params serializer_class) = inl e →
get_queryset py params serializer_class queryset possible = inl e.
Proof. unfold get_queryset. by intros ->. Qed.

(** C3 (as stated fails). With [?exclude=auth] the paths ["author"] and
  ["author__profile"] are removed, although no entry of the parameter
  is a prefix of either on whole segments. *)
Lemma string_prefix_removes_sibling :
relations_paths Requests.exclude_auth Requests.blog = {[ "comments" ]} ∧
"author" ∈ _all_related_paths Requests.blog ∧
"author" ∉ relations_paths Requests.exclude_auth Requests.blog ∧
excludes_of Requests.exclude_auth = {[ "auth" ]} ∧
segment_prefix "auth" "author" = false ∧
¬ (∀ params serializer_class path,
     path ∈ _all_related_paths serializer_class →
     path ∉ relations_paths params serializer_class →
     ∃ exclude, exclude ∈ excludes_of params ∧
                segment_prefix exclude path = true).
Proof.
assert (relations_paths Requests.exclude_auth Requests.blog = {[ "comments" ]})
  as Hr by (vm_compute; reflexivity).
assert (excludes_of Requests.exclude_auth = {[ "auth" ]})
  as He by (vm_compute; reflexivity).
assert ("author" ∈ _all_related_paths Requests.blog) as Hin
  by (apply (bool_decide_unpack _); vm_compute; exact I).
assert ("author" ∉ relations_paths Requests.exclude_auth Requests.blog) as Hout
  by (rewrite Hr; by intros ?%elem_of_singleton).
split; [done|]. split; [done|]. split; [done|]. split; [done|].
split; [reflexivity|]. intros Hclaim.
destruct (Hclaim Requests.exclude_auth Requests.blog "author" Hin Hout)
  as (e & He' & Hseg).
rewrite He in He'. apply elem_of_singleton in He' as ->. done.
Qed.

(** C3 (amended). A path is removed from the active eager-load path set
  exactly when some non-empty entry of the exclude parameter is a
  string prefix of it ([str.startswith]); so excluding a path also
  excludes every longer path under it. *)
Theorem exclusion_is_string_prefix params serializer_class path :
(path ∈ relations_paths params serializer_class ↔
 path ∈ _all_related_paths serializer_class ∧
 ∀ exclude, exclude ∈ PyStr.split "," (get params "exclude") →
            exclude ≠ EmptyString → PyStr.startswith path exclude = false) ∧
(∀ rest, path ∈ _all_related_paths serializer_class →
         path ∉ relations_paths params serializer_class →
         Walker.join path rest ∉ relations_paths params serializer_class).
Proof.
split.
- rewrite elem_of_relations_paths, any_startswith_false. unfold excludes_of.
  split; intros [Hp Hall]; (split; [done|]); intros e He; apply Hall;
    revert He; by rewrite elem_of_list_to_set.
- intros rest Hin Hout Hsub. apply Hout.
  apply elem_of_relations_paths. split; [done|].
  apply elem_of_relations_paths in Hsub as [_ Hsub].
  rewrite any_startswith_false in Hsub |- *.
  intros e He Hne. specialize (Hsub e He Hne).
  apply not_true_iff_false. intros Hs. apply not_true_iff_false in Hsub.
  apply Hsub. unfold PyStr.startswith, Walker.join in *. by apply prefix_append.
Qed.

Lemma filter_bool_decide (possible : gset string) (l : list string) :
  List.filter (λ field, bool_decide (field ∈ possible)) l =
  filter (λ field, field ∈ possible) l.
Proof.
induction l as [|x l IH]; [done|]. simpl. rewrite filter_cons, IH.
by destruct (decide (x ∈ possible));
  [rewrite bool_decide_eq_true_2|rewrite bool_decide_eq_false_2].
Qed.

Lemma elem_of_order_by_of params (possible : gset string) field :
field ∈ order_by_of params possible ↔
field ∈ PyStr.split "," (get params "order_by") ∧ field ∈ possible.
Proof.
unfold order_by_of. rewrite !list_elem_of_In, filter_In, bool_decide_eq_true.
done.
Qed.

Lemma lookup_filter_by_of params (possible : gset string) field value :
filter_by_of params possible !! field = Some value ↔
params !! field = Some value ∧ field ∈ possible.
Proof. unfold filter_by_of. by rewrite map_lookup_filter_Some. Qed.

(** C4. When the request's depth is readable, [get_queryset] returns
    without error whatever keys the request carries. The keyword
    arguments of the one [filter] call are exactly the request's keys
    found in [_possible_fields], each with its value. The [order_by]
    parameter is cut at its commas into entries, which are the only
    comma-free pieces that joined by commas give the parameter back; the
    arguments of [order_by] are those entries found in
    [_possible_fields], every one of them, as often and in the order the
    caller listed them. Any other key or entry is dropped; when nothing
    is left, [filter] or [order_by] is not called. *)
Theorem unknown_fields_dropped py params serializer_class queryset
  (possible : gset string) depth :
int py (depth_argument params serializer_class) = inr depth →
∃ shaped filter_by entries,
  get_queryset py params serializer_class queryset possible = inr shaped ∧
  (∀ field value, filter_by !! field = Some value ↔
                  params !! field = Some value ∧ field ∈ possible) ∧
  filter_calls shaped =
    filter_calls queryset ++
      (if bool_decide (filter_by = ∅) then [] else [filter_by]) ∧
  entries ≠ [] ∧
  PyJoin.join_sep "," entries = default EmptyString (params !! "order_by") ∧
  Forall (λ entry, PyJoin.contains "," entry = false) entries ∧
  (∀ others, others ≠ [] →
     Forall (λ entry, PyJoin.contains "," entry = false) others →
     PyJoin.join_sep "," others = default EmptyString (params !! "order_by") →
     others = entries) ∧
  ordering shaped =
    match filter (λ entry, entry ∈ possible) entries with
    | [] => ordering queryset
    | order_by => order_by
    end.
Proof.
intros Hdepth.
destruct (get_queryset_ok py params serializer_class queryset possible depth Hdepth)
  as (shaped & Hq & _ & Hf & Ho).
destruct (PyStrFacts.split_join "," (get params "order_by")) as (Hjoin & Hfree & _).
exists shaped, (filter_by_of params possible),
  (PyStr.split "," (get params "order_by")).
split; [done|]. split; [apply lookup_filter_by_of|]. split; [done|].
split; [apply PyStrFacts.split_nonempty|]. split; [done|]. split; [done|]. split.
- intros others Hne Hothers Hj.
  apply (PyStrFacts.pieces_determined ","); [done|apply PyStrFacts.split_nonempty|
    done|done|]. by rewrite Hj, Hjoin.
- rewrite Ho. unfold order_by_of. rewrite filter_bool_decide.
  by destruct (filter _ _).
Qed.

Lemma unknown_fields_dropped_witness :
(∃ shaped filter_by entries,
  get_queryset Interpreters.cpython Requests.mixed Requests.blog Requests.objects
    {[ "author"; "title" ]} = inr shaped ∧
  (∀ field value, filter_by !! field = Some value ↔
                  Requests.mixed !! field = Some value ∧
                  field ∈ ({[ "author"; "title" ]} : gset string)) ∧
  filter_calls shaped =
    filter_calls Requests.objects ++
      (if bool_decide (filter_by = ∅) then [] else [filter_by]) ∧
  entries ≠ [] ∧
  PyJoin.join_sep "," entries = default EmptyString (Requests.mixed !! "order_by") ∧
  Forall (λ entry, PyJoin.contains "," entry = false) entries ∧
  (∀ others, others ≠ [] →
     Forall (λ entry, PyJoin.contains "," entry = false) others →
     PyJoin.join_sep "," others = default EmptyString (Requests.mixed !! "order_by") →
     others = entries) ∧
  ordering shaped =
    match filter (λ entry, entry ∈ ({[ "author"; "title" ]} : gset string)) entries with
    | [] => ordering Requests.objects
    | order_by => order_by
    end) ∧
get_queryset Interpreters.cpython Requests.mixed Requests.blog Requests.objects
  {[ "author"; "title" ]} =
  inr {| eager_paths := Some ({[ "author"; "author__profile"; "comments" ]}, 1%Z);
         filter_calls := [ {[ "author" := "3" ]} ];
         ordering := [ "title"; "author" ] |} ∧
get_queryset Interpreters.cpython {[ "order_by" := "a,b,a" ]} Requests.blog
  Requests.objects {[ "a"; "b" ]} =
  inr {| eager_paths := Some ({[ "author"; "author__profile"; "comments" ]}, 2%Z);
         filter_calls := [];
         ordering := [ "a"; "b"; "a" ] |}.
Proof.
split; [|split].
- apply (unknown_fields_dropped Interpreters.cpython Requests.mixed Requests.blog
           Requests.objects {[ "author"; "title" ]} 1%Z).
  vm_compute. reflexivity.
- vm_compute. reflexivity.
- vm_compute. reflexivity.
Defined.

(** Both methods work with this depth: the serializer is built with it
    and the queryset is optimized for it. *)
Definition shaped_with (py : PyStr.Interpreter) (params : QueryParams)
    (serializer_class : SerializerClass) (queryset : QuerySet)
    (possible : gset string) (depth : Z) : Prop :=
  get_serializer py (Some params) serializer_class =
    inr (DeepSerializer depth (relations_paths params serializer_class)) ∧
  ∃ shaped,
    get_queryset py params serializer_class queryset possible = inr shaped ∧
    eager_paths shaped = Some (relations_paths params serializer_class, depth).

(** Both methods raise this exception. *)
Definition both_raise (py : PyStr.Interpreter) (params : QueryParams)
    (serializer_class : SerializerClass) (queryset : QuerySet)
    (possible : gset string) (e : Exception) : Prop :=
  get_serializer py (Some params) serializer_class = inl e ∧
  get_queryset py params serializer_class queryset possible = inl e.

Lemma shaped_with_int py params serializer_class queryset possible depth :
  int py (depth_argument params serializer_class) = inr depth →
  shaped_with py params serializer_class queryset possible depth.
Proof.
intros Hi. split; [by apply get_serializer_ok|].
destruct (get_queryset_ok _ _ _ queryset possible _ Hi) as (shaped & ? & ? & _).
by exists shaped.
Qed.

Lemma both_raise_int py params serializer_class queryset possible e :
  int py (depth_argument params serializer_class) = inl e →
  both_raise py params serializer_class queryset possible e.
Proof.
intros Hi. split; [|by apply get_queryset_raises].
unfold get_serializer. by rewrite Hi.
Qed.

(** C8. The depth handed to the serializer and to [optimize_queryset] is
    [Meta.original_depth] when the request has no [depth] parameter and
    the integer [int] reads from the parameter when it has one: the
    number [n] when the parameter is the decimal writing of [n]. A
    [depth] parameter that [int] cannot read, as is every ASCII string
    holding a character other than a digit, a sign, an underscore or
    whitespace, makes both methods raise [ValueError] instead of falling
    back to the default. *)
Theorem effective_depth py params serializer_class queryset (possible : gset string) :
(params !! "depth" = None →
 shaped_with py params serializer_class queryset possible
   (original_depth serializer_class)) ∧
(∀ n, params !! "depth" = Some (PyStr.str_of_int n) →
      PyStr.within_limit py (PyStr.decimal_digits n) = true →
      shaped_with py params serializer_class queryset possible n) ∧
(∀ s, params !! "depth" = Some s →
      match PyStr.int_of_str py s with
      | Some depth => shaped_with py params serializer_class queryset possible depth
      | None => both_raise py params serializer_class queryset possible (ValueError s)
      end) ∧
(∀ s, params !! "depth" = Some s →
      PyStr.is_ascii s = true → PyStr.any_char PyStr.not_numeric s = true →
      both_raise py params serializer_class queryset possible (ValueError s)).
Proof.
assert (∀ s, params !! "depth" = Some s →
          match PyStr.int_of_str py s with
          | Some depth => shaped_with py params serializer_class queryset possible depth
          | None => both_raise py params serializer_class queryset possible
                      (ValueError s)
          end) as Hread.
{ intros s Hd. destruct (PyStr.int_of_str py s) as [depth|] eqn:Hp.
  - apply shaped_with_int. unfold depth_argument, int. by rewrite Hd, Hp.
  - apply both_raise_int. unfold depth_argument, int. by rewrite Hd, Hp. }
split; [|split; [|split; [done|]]].
- intros Hd. apply shaped_with_int. unfold depth_argument, int. by rewrite Hd.
- intros n Hd Hlimit. specialize (Hread _ Hd).
  by rewrite (PyStrFacts.int_of_str_of_int py n Hlimit) in Hread.
- intros s Hd Ha Hany. specialize (Hread _ Hd).
  by rewrite (PyStrFacts.int_of_str_not_numeric py s Ha Hany) in Hread.
Qed.

Lemma effective_depth_witness :
shaped_with Interpreters.cpython {[ "depth" := "3" ]} Requests.blog Requests.objects
            ∅ 3 ∧
both_raise Interpreters.cpython {[ "depth" := "3.5" ]} Requests.blog Requests.objects
           ∅ (ValueError "3.5") ∧
shaped_with Interpreters.cpython ∅ Requests.blog Requests.objects ∅ 2 ∧
get_serializer Interpreters.cpython (Some {[ "depth" := "3" ]}) Requests.blog =
  inr (DeepSerializer 3 {[ "author"; "author__profile"; "comments" ]}) ∧
get_serializer Interpreters.cpython (Some {[ "depth" := " -1_0 " ]}) Requests.blog =
  inr (DeepSerializer (-10) {[ "author"; "author__profile"; "comments" ]}) ∧
get_queryset Interpreters.cpython {[ "depth" := "deep" ]} Requests.blog
             Requests.objects ∅ = inl (ValueError "deep").
Proof.
split; [|split; [|split; [|split; [|split]]]].
- apply (proj1 (proj2 (effective_depth Interpreters.cpython {[ "depth" := "3" ]}
                          Requests.blog Requests.objects ∅)) 3%Z).
  + vm_compute. reflexivity.
  + vm_compute. reflexivity.
- apply (proj2 (proj2 (proj2 (effective_depth Interpreters.cpython
                                 {[ "depth" := "3.5" ]} Requests.blog
                                 Requests.objects ∅))) "3.5").
  + vm_compute. reflexivity.
  + vm_compute. reflexivity.
  + vm_compute. reflexivity.
- apply (proj1 (effective_depth Interpreters.cpython ∅ Requests.blog
                   Requests.objects ∅)).
  vm_compute. reflexivity.
- vm_compute. reflexivity.
- vm_compute. reflexivity.
- vm_compute. reflexivity.
Defined.

Lemma relations_paths_all params serializer_class :
get params "exclude" = EmptyString →
relations_paths params serializer_class = _all_related_paths serializer_class.
Proof.
intros Hget. apply set_eq. intros path.
rewrite elem_of_relations_paths, any_startswith_false.
unfold excludes_of. rewrite Hget. split; [by intros [? _]|].
intros Hin. split; [done|]. intros e He Hne.
apply elem_of_list_to_set in He. simpl in He.
apply list_elem_of_singleton in He. done.
Qed.

(** C10. When the [exclude] parameter is absent or empty no path is
  excluded: the empty string that splitting yields is skipped by the
  exclusion test, and the serializer and [optimize_queryset] both
  receive the whole of [_all_related_paths]. *)
Theorem no_exclusion_without_parameter py params serializer_class :
params !! "exclude" = None ∨ params !! "exclude" = Some EmptyString →
PyStr.split "," (get params "exclude") = [EmptyString] ∧
relations_paths params serializer_class = _all_related_paths serializer_class ∧
∀ depth, int py (depth_argument params serializer_class) = inr depth →
  get_serializer py (Some params) serializer_class =
    inr (DeepSerializer depth (_all_related_paths serializer_class)) ∧
  ∀ queryset (possible : gset string), ∃ shaped,
    get_queryset py params serializer_class queryset possible = inr shaped ∧
    eager_paths shaped = Some (_all_related_paths serializer_class, depth).
Proof.
intros Habsent.
assert (get params "exclude" = EmptyString) as Hget
  by (unfold get; destruct Habsent as [-> | ->]; done).
pose proof (relations_paths_all params serializer_class Hget) as Hall.
split; [by rewrite Hget|]. split; [done|]. intros depth Hdepth. split.
- rewrite <- Hall. by apply get_serializer_ok.
- intros queryset possible.
  destruct (get_queryset_ok _ _ _ queryset possible _ Hdepth) as (shaped & ? & ? & _).
  exists shaped. by rewrite <- Hall.
Qed.

Lemma no_exclusion_without_parameter_witness :
PyStr.split "," (get ∅ "exclude") = [EmptyString] ∧
relations_paths ∅ Requests.blog = _all_related_paths Requests.blog ∧
∀ depth, int Interpreters.cpython (depth_argument ∅ Requests.blog) = inr depth →
  get_serializer Interpreters.cpython (Some ∅) Requests.blog =
    inr (DeepSerializer depth (_all_related_paths Requests.blog)) ∧
  ∀ queryset (possible : gset string), ∃ shaped,
    get_queryset Interpreters.cpython ∅ Requests.blog queryset possible = inr shaped ∧
    eager_paths shaped = Some (_all_related_paths Requests.blog, depth).
Proof.
apply (no_exclusion_without_parameter Interpreters.cpython ∅ Requests.blog).
left. reflexivity.
Defined.
End ShaperFacts.

(** ** Facts about the registry *)

Module RegistryFacts.
Import Exc Walker Registry.

(** The class [get_view_set_class] generates for a key not yet known. *)
Definition generated (schema : Schema) (cls : ViewSetClass) (model : Model)
  (use_case : string) : ViewSetClass :=
{| cls_name := view_set_key schema use_case model;
   Registry.use_case := use_case;
   queryset := Some model;
   serializer_class := match serializer_class cls with
                       | None => Some (Generated model use_case)
                       | Some s => Some s
                       end;
   _possible_fields := Some (possible_fields_of schema model []) |}.

(** What [__init_subclass__] leaves of a class that has a queryset. *)
Definition initialised (schema : Schema) (c : ViewSetClass) (model : Model)
: ViewSetClass :=
{| cls_name := cls_name c;
   Registry.use_case := Registry.use_case c;
   queryset := queryset c;
   serializer_class := match serializer_class c with
                       | None => Some (Generated model (Registry.use_case c))
                       | Some s => Some s
                       end;
   _possible_fields := Some (possible_fields_of schema model []) |}.

Lemma class_statement_registers schema base body st model :
queryset (inherit base body) = Some model →
class_statement schema base body st =
  (length (classes st),
   {| classes := classes st ++ [initialised schema (inherit base body) model];
      _viewsets := <[ view_set_key schema (use_case (inherit base body)) model
                      := length (classes st) ]> (_viewsets st) |}).
Proof.
intros Hq. unfold class_statement, __init_subclass__. simpl.
rewrite list_lookup_middle by done. rewrite Hq. f_equal. f_equal.
rewrite insert_app_r_alt by done. rewrite Nat.sub_diag.
unfold initialised. by rewrite Hq.
Qed.

Lemma class_statement_passive schema base body st :
queryset (inherit base body) = None →
class_statement schema base body st =
  (length (classes st),
   {| classes := classes st ++ [inherit base body]; _viewsets := _viewsets st |}).
Proof.
intros Hq. unfold class_statement, __init_subclass__. simpl.
rewrite list_lookup_middle by done. by rewrite Hq.
Qed.

Lemma get_view_set_class_found schema cls model use_case st found :
_viewsets st !! view_set_key schema use_case model = Some found →
get_view_set_class schema cls model use_case st = (inr found, st).
Proof. intros Hk. unfold get_view_set_class. by rewrite !Hk. Qed.

Lemma get_view_set_class_fresh schema cls model use_case st :
_viewsets st !! view_set_key schema use_case model = None →
get_view_set_class schema cls model use_case st =
  (inr (length (classes st)),
   {| classes := classes st ++ [generated schema cls model use_case];
      _viewsets := <[ view_set_key schema use_case model := length (classes st) ]>
                     (_viewsets st) |}).
Proof.
intros Hk. unfold get_view_set_class. rewrite Hk.
rewrite (class_statement_registers _ _ _ _ model) by done.
unfold set_name. simpl. rewrite lookup_insert_eq. f_equal. f_equal.
rewrite alter_app_r_alt by done. by rewrite Nat.sub_diag.
Qed.

(** A lookup never touches a key that is already registered. *)
Lemma get_view_set_class_preserves schema cls model use_case st key found :
_viewsets st !! key = Some found →
_viewsets (get_view_set_class schema cls model use_case st).2 !! key = Some found.
Proof.
intros Hk.
destruct (_viewsets st !! view_set_key schema use_case model) as [h|] eqn:Hv.
- by rewrite (get_view_set_class_found _ _ _ _ _ _ Hv).
- rewrite (get_view_set_class_fresh _ _ _ _ _ Hv). simpl.
  rewrite lookup_insert_ne; [done|]. intros <-. congruence.
Qed.

Lemma run_lookups_preserves schema lookups st key found :
_viewsets st !! key = Some found →
_viewsets (run_lookups schema lookups st) !! key = Some found.
Proof.
revert st. induction lookups as [|l lookups IH]; intros st Hk; [done|].
simpl. apply IH. by apply get_view_set_class_preserves.
Qed.

(** Every class with a queryset is registered, and no two of them were
  made for the same key. *)
Definition one_class_per_key (schema : Schema) (st : State) : Prop :=
NoDup (omap (key_of_class schema) (classes st)) ∧
∀ key, key ∈ omap (key_of_class schema) (classes st) →
       is_Some (_viewsets st !! key).

Lemma one_class_per_key_initial schema : one_class_per_key schema initial.
Proof.
split; simpl; [constructor|]. intros key Hk. by apply elem_of_nil in Hk.
Qed.

Lemma one_class_per_key_lookup schema cls model use_case st :
one_class_per_key schema st →
one_class_per_key schema (get_view_set_class schema cls model use_case st).2.
Proof.
intros [Hnd Hreg].
destruct (_viewsets st !! view_set_key schema use_case model) as [h|] eqn:Hv.
- by rewrite (get_view_set_class_found _ _ _ _ _ _ Hv).
- rewrite (get_view_set_class_fresh _ _ _ _ _ Hv). unfold one_class_per_key.
  simpl. rewrite omap_app. simpl. split.
  + apply NoDup_app. split; [done|]. split; [|apply NoDup_singleton].
    intros key Hk Hin. apply list_elem_of_singleton in Hin as ->.
    apply Hreg in Hk as [? Hk]. congruence.
  + intros key Hk. apply elem_of_app in Hk as [Hk|Hk].
    * destruct (decide (key = view_set_key schema use_case model)) as [->|Hne].
      -- rewrite lookup_insert_eq. by eexists.
      -- rewrite lookup_insert_ne by done. by apply Hreg.
    * apply list_elem_of_singleton in Hk as ->.
      rewrite lookup_insert_eq. by eexists.
Qed.

Lemma one_class_per_key_run schema lookups st :
one_class_per_key schema st → one_class_per_key schema (run_lookups schema lookups st).
Proof.
revert st. induction lookups as [|l lookups IH]; intros st Hinv; [done|].
simpl. apply IH. by apply one_class_per_key_lookup.
Qed.

(** C5. Asking twice for the view-set of the same use case and model
  returns the same class object, and the second request leaves the
  state as it found it: no class is built and no field set computed
  again. Over any series of requests made after import, no two class
  objects are ever built for one key. *)
Theorem get_view_set_class_idempotent schema cls cls' model use_case st :
(∃ handler st',
   get_view_set_class schema cls model use_case st = (inr handler, st') ∧
   get_view_set_class schema cls' model use_case st' = (inr handler, st')) ∧
(∀ lookups,
   NoDup (omap (key_of_class schema)
               (classes (run_lookups schema lookups initial)))).
Proof.
split.
- destruct (_viewsets st !! view_set_key schema use_case model) as [h|] eqn:Hv.
  + exists h, st. by rewrite !(get_view_set_class_found _ _ _ _ _ _ Hv).
  + rewrite (get_view_set_class_fresh _ _ _ _ _ Hv). eexists _, _.
    split; [done|]. apply get_view_set_class_found. simpl.
    by rewrite lookup_insert_eq.
- intros lookups.
  by destruct (one_class_per_key_run schema lookups initial
                 (one_class_per_key_initial schema)).
Qed.

(** C6 (as stated fails). A view-set written by hand for the book model
  is registered; a second class that merely inherits from it is
  registered under the same key and replaces it, and lookups then
  return the second class. *)
Lemma later_registration_overwrites :
let schema := Samples.mutual in
let first := class_statement schema DeepViewSet ViewSets.BookViewSet initial in
let book_view_set := default DeepViewSet (classes first.2 !! first.1) in
let second :=
  class_statement schema book_view_set ViewSets.AuditedBookViewSet first.2 in
cls_name book_view_set = "BookViewSet" ∧
first.1 = 3 ∧ _viewsets first.2 !! "BookViewSet" = Some 3 ∧
second.1 = 4 ∧ _viewsets second.2 !! "BookViewSet" = Some 4 ∧
(get_view_set_class schema DeepViewSet Samples.B EmptyString second.2).1 = inr 4.
Proof. vm_compute. done. Qed.

(** C6 (amended). Once a class written by hand is registered under a
  key, whether or not a generated class was stored under that key
  before, every later lookup of the key returns it and no series of
  lookups overwrites it; only a later class statement under the same
  key replaces it. *)
Theorem manual_registration_wins schema base body model st lookups :
queryset (inherit base body) = Some model →
let registered := class_statement schema base body st in
let key := view_set_key schema (use_case (inherit base body)) model in
let st' := run_lookups schema lookups registered.2 in
_viewsets st' !! key = Some registered.1 ∧
∀ cls model' use_case',
  view_set_key schema use_case' model' = key →
  get_view_set_class schema cls model' use_case' st' = (inr registered.1, st').
Proof.
intros Hq. cbv zeta.
rewrite (class_statement_registers _ _ _ _ model Hq). cbn [fst snd].
assert (_viewsets
          (run_lookups schema lookups
             {| classes := classes st ++ [initialised schema (inherit base body) model];
                _viewsets := <[ view_set_key schema (use_case (inherit base body)) model
                                := length (classes st) ]> (_viewsets st) |})
          !! view_set_key schema (use_case (inherit base body)) model
        = Some (length (classes st))) as Hk.
{ apply run_lookups_preserves. simpl. by rewrite lookup_insert_eq. }
split; [done|]. intros cls model' use_case' Hkey.
apply get_view_set_class_found. by rewrite Hkey.
Qed.

Lemma manual_registration_wins_witness :
let schema := Samples.mutual in
let generated_first :=
  (get_view_set_class schema DeepViewSet Samples.B EmptyString initial).2 in
let registered :=
  class_statement schema DeepViewSet ViewSets.BookViewSet generated_first in
let key := view_set_key schema
             (use_case (inherit DeepViewSet ViewSets.BookViewSet)) Samples.B in
let st' := run_lookups schema [(ReadOnlyDeepViewSet, Samples.B, EmptyString);
                               (DeepViewSet, Samples.A, EmptyString)]
             registered.2 in
_viewsets st' !! key = Some registered.1 ∧
∀ cls model' use_case',
  view_set_key schema use_case' model' = key →
  get_view_set_class schema cls model' use_case' st' = (inr registered.1, st').
Proof.
apply (manual_registration_wins Samples.mutual DeepViewSet ViewSets.BookViewSet
         Samples.B).
reflexivity.
Defined.
End RegistryFacts.

(** ** Facts about the nested write *)

Module NestedWriteFacts.
Import Exc Walker NestedWrite.

Scheme WriteGraph_mut := Induction for WriteGraph Sort Prop
with Children_mut := Induction for Children Sort Prop.
Combined Scheme write_graph_mutind from WriteGraph_mut, Children_mut.

Section Engine.
Variable validate : Model → Scalars → list string.
Variable coerce : Model → Scalars → Scalars.

(** Some child of the given kind holds an invalid node. *)
Fixpoint any_invalid_of (kind : Cardinality) (cs : Children) : bool :=
match cs with
| NoChild => false
| Child _ kind' payload rest =>
  match kind, kind' with
  | ToOne, ToOne | ToMany, ToMany =>
      has_invalid validate payload || any_invalid_of kind rest
  | _, _ => any_invalid_of kind rest
  end
end.

Lemma any_invalid_split cs :
any_invalid validate cs = any_invalid_of ToOne cs || any_invalid_of ToMany cs.
Proof.
induction cs as [|relation kind payload rest IH]; [done|]. simpl.
rewrite IH. destruct kind, (has_invalid validate payload),
(any_invalid_of ToOne rest), (any_invalid_of ToMany rest); done.
Qed.

(** The result is a validation error naming an invalid node of [g]. *)
Definition names_node {A : Type} (r : result A) (path : Path) (g : WriteGraph)
: Prop :=
∃ p entity_type scalars,
r = inl (ValidationError (path ++ p) (validate entity_type scalars)) ∧
node_at p g = Some (entity_type, scalars) ∧
validate entity_type scalars ≠ [].

(** The same for a node under one of the children [cs], the first of
which is child number [i] of its parent. *)
Definition names_child {A : Type} (r : result A) (path : Path) (i : nat)
(cs : Children) : Prop :=
∃ k relation g p entity_type scalars,
r = inl (ValidationError (path ++ (relation, i + k) :: p)
                         (validate entity_type scalars)) ∧
nth_child cs k = Some (relation, g) ∧
node_at p g = Some (entity_type, scalars) ∧
validate entity_type scalars ≠ [].

Lemma names_child_here {A B : Type} (r : result A) (r' : result B)
path i relation kind g rest :
names_node r (path ++ [(relation, i)]) g →
(∀ e, r = inl e → r' = inl e) →
names_child r' path i (Child relation kind g rest).
Proof.
intros (p & ty & sc & Hr & Hn & Hv) Hr'. exists 0, relation, g, p, ty, sc.
rewrite Nat.add_0_r. split; [|done].
rewrite (Hr' _ Hr). by rewrite <- app_assoc.
Qed.

Lemma names_child_later {A : Type} (r : result A) path i relation kind g rest :
names_child r path (S i) rest →
names_child r path i (Child relation kind g rest).
Proof.
intros (k & rel & g' & p & ty & sc & Hr & Hc & Hn & Hv).
exists (S k), rel, g', p, ty, sc. split; [|done].
by rewrite Nat.add_succ_r.
Qed.

Lemma names_node_child {A B : Type} (r : result A) (r' : result B) path
entity_type pk scalars cs :
names_child r path 0 cs →
(∀ e, r = inl e → r' = inl e) →
names_node r' path (Node entity_type pk scalars cs).
Proof.
intros (k & rel & g' & p & ty & sc & Hr & Hc & Hn & Hv) Hr'.
exists ((rel, k) :: p), ty, sc. split; [by rewrite (Hr' _ Hr)|].
split; [|done]. simpl. rewrite Hc. by rewrite String.eqb_refl.
Qed.

(** With raising enabled, a graph with an invalid node makes the
descent raise a validation error naming such a node, and a graph
without one is written. *)
Lemma upsert_raises_or_writes :
(∀ g path inject st,
 if has_invalid validate g
 then names_node (upsert validate coerce true path inject g st) path g
 else ∃ written, upsert validate coerce true path inject g st = inr written) ∧
(∀ cs,
 (∀ path i st,
    if any_invalid_of ToOne cs
    then names_child (upsert_to_one validate coerce true path i cs st) path i cs
    else ∃ wired, upsert_to_one validate coerce true path i cs st = inr wired) ∧
 (∀ path i parent st,
    if any_invalid_of ToMany cs
    then names_child (upsert_to_many validate coerce true path i parent cs st)
                     path i cs
    else ∃ st', upsert_to_many validate coerce true path i parent cs st
                = inr st')).
Proof.
apply write_graph_mutind.
- intros ty pk scalars cs [Hone Hmany] path inject st. simpl.
unfold check. destruct (validate ty scalars) as [|f fs] eqn:Hv.
+ simpl. rewrite any_invalid_split.
  specialize (Hone path 0 st).
  destruct (any_invalid_of ToOne cs); simpl.
  * eapply names_node_child; [exact Hone|]. by intros e ->.
  * destruct Hone as [wired Hwired]. rewrite Hwired. simpl.
    specialize (Hmany path 0
      (persist ty pk scalars (inject ++ wired.1) wired.2).1
      (persist ty pk scalars (inject ++ wired.1) wired.2).2).
    destruct (any_invalid_of ToMany cs).
    -- eapply names_node_child; [exact Hmany|]. by intros e ->.
    -- destruct Hmany as [st' ->]. simpl. by eexists.
+ exists [], ty, scalars. rewrite app_nil_r, Hv. done.
- split; intros; simpl; by eexists.
- intros relation kind g Hg rest [Hone Hmany]. split.
+ intros path i st. destruct kind; simpl.
  * specialize (Hg (path ++ [(relation, i)]) [] st).
    destruct (has_invalid validate g); simpl.
    -- eapply names_child_here; [exact Hg|]. by intros e ->.
    -- destruct Hg as [child ->]. simpl.
       specialize (Hone path (S i) child.2).
       destruct (any_invalid_of ToOne rest).
       ++ apply names_child_later.
          destruct Hone as (k & rel & g' & p & ty & sc & Hr & Hrest).
          exists k, rel, g', p, ty, sc. by rewrite Hr.
       ++ destruct Hone as [wired ->]. simpl. by eexists.
  * specialize (Hone path (S i) st).
    destruct (any_invalid_of ToOne rest); [by apply names_child_later|done].
+ intros path i parent st. destruct kind; simpl.
  * specialize (Hmany path (S i) parent st).
    destruct (any_invalid_of ToMany rest); [by apply names_child_later|done].
  * specialize (Hg (path ++ [(relation, i)]) [(relation, parent)] st).
    destruct (has_invalid validate g); simpl.
    -- eapply names_child_here; [exact Hg|]. by intros e ->.
    -- destruct Hg as [child ->]. simpl.
       specialize (Hmany path (S i) parent
                     (associate parent relation child.1 child.2)).
       destruct (any_invalid_of ToMany rest);
         [by apply names_child_later|done].
Qed.

(** C9. A nested write whose payload holds at least one node failing
field validation, raising enabled as [deep_create] always asks,
raises a validation error that names the path and the rejected
fields of such a node, and leaves storage as it was: neither the
root nor any descendant is persisted. *)
Theorem invalid_write_aborts py request serializer_class model request_data st :
raises (Shaper.get_serializer py (Some request) serializer_class) = false →
has_invalid validate (rooted model request_data) = true →
∃ path entity_type scalars,
deep_create validate coerce py request serializer_class model request_data st =
  (inl (ValidationError path (validate entity_type scalars)), st) ∧
node_at path (rooted model request_data) = Some (entity_type, scalars) ∧
validate entity_type scalars ≠ [].
Proof.
intros Hser Hinv. unfold deep_create, deep_update_or_create.
destruct (Shaper.get_serializer py (Some request) serializer_class); [done|].
pose proof (proj1 upsert_raises_or_writes (rooted model request_data) [] [] st)
as Hup.
rewrite Hinv in Hup. destruct Hup as (p & ty & sc & -> & Hn & Hv).
by exists p, ty, sc.
Qed.
End Engine.

Lemma invalid_write_aborts_witness :
∃ path entity_type scalars,
  deep_create Writes.title_required Writes.keep Interpreters.cpython ∅ Requests.blog
              Samples.A
              Writes.author_with_books [] =
    (inl (ValidationError path (Writes.title_required entity_type scalars)), []) ∧
  node_at path (rooted Samples.A Writes.author_with_books)
    = Some (entity_type, scalars) ∧
  Writes.title_required entity_type scalars ≠ [].
Proof.
apply (invalid_write_aborts Writes.title_required Writes.keep Interpreters.cpython ∅
         Requests.blog
         Samples.A Writes.author_with_books []).
- reflexivity.
- vm_compute. reflexivity.
Defined.
End NestedWriteFacts.

(** ** More about the walker *)

Module WalkerMore.
Import Walker Chains WalkerFacts.

(** A call that returned made every recursive call it needed return. *)
Lemma for_each_visit_recursed recurse m E l acc r f t :
for_each (visit recurse m E) l acc = Some r →
f ∈ l → not_in (related_model f) E = true → related_model f = Some t →
is_Some (recurse t (E ++ [m])).
Proof.
revert acc. induction l as [|g l IH]; intros acc Hr Hf Hin Ht.
- by apply elem_of_nil in Hf.
- simpl in Hr. destruct (visit recurse m E acc g) as [acc'|] eqn:Hv; [|done].
  simpl in Hr. apply elem_of_cons in Hf as [->|Hf]; [|by eapply IH].
  unfold visit in Hv. rewrite Hin, Ht in Hv.
  destruct (recurse t (E ++ [m])); [by eexists|done].
Qed.

Lemma build_recursed schema fuel m E r f t :
build_possible_fields schema (S fuel) m E = Some r →
f ∈ fields_of schema m → not_in (related_model f) E = true →
related_model f = Some t →
is_Some (build_possible_fields schema fuel t (E ++ [m])).
Proof. simpl. intros Hr. by eapply for_each_visit_recursed. Qed.

Lemma possible_fields_of_spec schema m E fuel :
enough_fuel schema ≤ fuel →
build_possible_fields schema fuel m E = Some (possible_fields_of schema m E).
Proof.
intros Hle. destruct (build_returns schema (enough_fuel schema) m E)
  as [r Hr]; [apply potential_bound|].
unfold possible_fields_of. rewrite Hr. simpl.
by apply build_fuel_mono with (enough_fuel schema).
Qed.

Lemma build_is_possible_fields_of schema fuel m E r :
build_possible_fields schema fuel m E = Some r → r = possible_fields_of schema m E.
Proof.
intros Hr.
pose proof (build_fuel_mono schema fuel (fuel + enough_fuel schema) m E r Hr) as H1.
rewrite possible_fields_of_spec in H1 by lia.
assert (fuel ≤ fuel + enough_fuel schema) as Hle by lia.
specialize (H1 Hle). congruence.
Qed.

(** Whatever depth of recursion is allowed beyond the sufficient one,
  the enumeration returns the same set, and that set obeys the
  equation of the loop: a path is a field name whose related model is
  not excluded, or such a name joined by ["__"] to a path of the
  related model enumerated with the parent excluded as well. *)
Theorem possible_fields_unfold schema m E p :
(∀ fuel, enough_fuel schema ≤ fuel →
         build_possible_fields schema fuel m E = Some (possible_fields_of schema m E)) ∧
(p ∈ possible_fields_of schema m E ↔
 ∃ f, f ∈ fields_of schema m ∧ not_in (related_model f) E = true ∧
      (p = name f ∨
       ∃ t q, related_model f = Some t ∧
              q ∈ possible_fields_of schema t (E ++ [m]) ∧
              p = join (name f) q)).
Proof.
split; [intros fuel; apply possible_fields_of_spec|].
assert (build_possible_fields schema (S (enough_fuel schema)) m E =
        Some (possible_fields_of schema m E)) as Hr
  by (apply possible_fields_of_spec; lia).
rewrite (elem_of_build _ _ _ _ _ p Hr). unfold emits. split.
- intros (f & Hf & Hin & [->|(t & sub & q & Ht & Hsub & Hq & ->)]).
  + exists f. by auto.
  + exists f. split; [done|]. split; [done|]. right. exists t, q.
    rewrite possible_fields_of_spec in Hsub by done. by simplify_eq.
- intros (f & Hf & Hin & [->|(t & q & Ht & Hq & ->)]).
  + exists f. by auto.
  + exists f. split; [done|]. split; [done|]. right.
    exists t, (possible_fields_of schema t (E ++ [m])), q.
    by rewrite possible_fields_of_spec.
Qed.

(** With nothing excluded, the name of every field of the model, scalar
  or relation, is among the possible fields. *)
Theorem every_field_is_possible schema fuel m r f :
build_possible_fields schema fuel m [] = Some r →
f ∈ fields_of schema m → name f ∈ r.
Proof.
destruct fuel as [|fuel]; [done|]. intros Hr Hf.
apply (elem_of_build _ _ _ _ _ _ Hr). exists f. split; [done|].
split; [|by left]. unfold not_in. destruct (related_model f); [|done].
apply bool_decide_eq_true. apply not_elem_of_nil.
Qed.

Lemma every_field_is_possible_witness :
"book" ∈ possible_fields_of Samples.mutual Samples.A [].
Proof.
apply (every_field_is_possible Samples.mutual 5 Samples.A
         (possible_fields_of Samples.mutual Samples.A [])
         (Samples.relation "book" Samples.B)).
- vm_compute. reflexivity.
- vm_compute. set_solver.
Defined.

Lemma not_in_mono model (E E' : list Model) :
(∀ x, x ∈ E → x ∈ E') → not_in model E' = true → not_in model E = true.
Proof.
intros Hsub. destruct model as [t|]; [|done]. simpl.
rewrite !bool_decide_eq_true. intros Hn Hin. by apply Hn, Hsub.
Qed.

Lemma build_excludes_mono schema fuel :
∀ m E E' r r',
  (∀ x, x ∈ E → x ∈ E') →
  build_possible_fields schema fuel m E = Some r →
  build_possible_fields schema fuel m E' = Some r' →
  r' ⊆ r.
Proof.
induction fuel as [|fuel IH]; intros m E E' r r' Hsub Hr Hr'; [done|].
intros p Hp.
apply (elem_of_build _ _ _ _ _ p Hr') in Hp as (f & Hf & Hin & Hp).
pose proof (not_in_mono _ _ _ Hsub Hin) as HinE.
apply (elem_of_build _ _ _ _ _ p Hr). exists f. split; [done|]. split; [done|].
destruct Hp as [->|(t & sub' & q & Ht & Hsub' & Hq & ->)]; [by left|].
right. destruct (build_recursed _ _ _ _ _ _ _ Hr Hf HinE Ht) as [sub Hs].
exists t, sub, q. split; [done|]. split; [done|]. split; [|done].
eapply (IH t (E ++ [m]) (E' ++ [m])); [|done|done|done].
intros x. rewrite !elem_of_app. intros [?|?]; [left; by apply Hsub|by right].
Qed.

(** Excluding more models never adds a path: the enumeration under a
  larger exclusion list is contained in the one under a smaller list,
  so the result depends on the excluded models only as a set. *)
Theorem excluding_more_never_adds schema m (E E' : list Model) :
(∀ x, x ∈ E → x ∈ E') →
possible_fields_of schema m E' ⊆ possible_fields_of schema m E.
Proof.
intros Hsub.
apply (build_excludes_mono schema (enough_fuel schema) m E E'); [done| |];
  by apply possible_fields_of_spec.
Qed.

Lemma excluding_more_never_adds_witness :
possible_fields_of Samples.mutual Samples.B [Samples.A]
  ⊆ possible_fields_of Samples.mutual Samples.B [].
Proof.
apply (excluding_more_never_adds Samples.mutual Samples.B [] [Samples.A]).
intros x Hx. by apply elem_of_nil in Hx.
Defined.

Lemma walk_cons schema m E a rest :
walk schema m E (a :: rest) ↔
∃ f, f ∈ fields_of schema m ∧ name f = a ∧ not_in (related_model f) E = true ∧
     (rest = [] ∨
      rest ≠ [] ∧ ∃ t, related_model f = Some t ∧ walk schema t (E ++ [m]) rest).
Proof.
simpl. split; intros (f & Hf & Hn & Hin & Hrest); exists f;
  (split; [done|]); (split; [done|]); (split; [done|]).
- destruct rest; [by left|right; split; [done|exact Hrest]].
- destruct rest; [done|]. by destruct Hrest as [?|[_ ?]].
Qed.

Lemma join_path_cons a rest :
rest ≠ [] → join_path (a :: rest) = join a (join_path rest).
Proof. by destruct rest. Qed.

(** The paths returned are exactly the chains of fields the schema
  declares from the model, joined by ["__"], in which no relation leads
  to a model excluded where it is read. *)
Theorem possible_fields_are_walks schema fuel m E r p :
build_possible_fields schema fuel m E = Some r →
p ∈ r ↔ ∃ segments, p = join_path segments ∧ walk schema m E segments.
Proof.
revert m E r p. induction fuel as [|fuel IH]; intros m E r p Hr; [done|].
rewrite (elem_of_build _ _ _ _ _ p Hr). unfold emits. split.
- intros (f & Hf & Hin & [->|(t & sub & q & Ht & Hsub & Hq & ->)]).
  + exists [name f]. split; [done|]. apply walk_cons. exists f. by auto.
  + apply (IH _ _ _ _ Hsub) in Hq as (segments & -> & Hw).
    assert (segments ≠ []) by (by destruct segments).
    exists (name f :: segments). split; [by rewrite join_path_cons|].
    apply walk_cons. exists f. split; [done|]. split; [done|]. split; [done|].
    right. split; [done|]. by exists t.
- intros (segments & -> & Hw). destruct segments as [|a rest]; [done|].
  apply walk_cons in Hw as (f & Hf & <- & Hin & [->|[Hne (t & Ht & Hw)]]).
  + exists f. by auto.
  + exists f. split; [done|]. split; [done|]. right.
    destruct (build_recursed _ _ _ _ _ _ _ Hr Hf Hin Ht) as [sub Hsub].
    exists t, sub, (join_path rest). split; [done|]. split; [done|].
    split; [|by rewrite join_path_cons].
    apply (IH _ _ _ _ Hsub). by exists rest.
Qed.

Lemma possible_fields_are_walks_witness :
"book__title" ∈ possible_fields_of Samples.mutual Samples.A [] ↔
∃ segments, "book__title" = join_path segments ∧
            walk Samples.mutual Samples.A [] segments.
Proof.
apply (possible_fields_are_walks Samples.mutual 5 Samples.A []).
vm_compute. reflexivity.
Defined.
Lemma for_each_scalars recurse m E (l : list Field) acc :
(∀ f, f ∈ l → related_model f = None) →
for_each (visit recurse m E) l acc = Some (acc ∪ list_to_set (name <$> l)).
Proof.
revert acc. induction l as [|f l IH]; intros acc Hscalar.
- simpl. by rewrite (right_id_L ∅ (∪)).
- assert (visit recurse m E acc f = Some (acc ∪ {[ name f ]})) as Hv.
  { unfold visit. rewrite (Hscalar f); [done|left]. }
  cbn [for_each]. rewrite Hv. simpl.
  rewrite IH by (intros g Hg; apply Hscalar; by right).
  by rewrite (assoc_L (∪)).
Qed.

(** A model whose fields are all scalar yields exactly the names of its
  fields, whatever is excluded and without any recursive call; a model
  without fields yields the empty set. *)
Theorem scalar_model_yields_its_field_names schema fuel m E :
(∀ f, f ∈ fields_of schema m → related_model f = None) →
build_possible_fields schema (S fuel) m E =
  Some (list_to_set (name <$> fields_of schema m)).
Proof.
intros Hscalar. simpl. rewrite for_each_scalars by done.
by rewrite (left_id_L ∅ (∪)).
Qed.

Lemma scalar_model_yields_its_field_names_witness :
build_possible_fields Homonyms.shop 1 Samples.A [Samples.B] =
  Some (list_to_set (name <$> fields_of Homonyms.shop Samples.A)).
Proof.
apply (scalar_model_yields_its_field_names Homonyms.shop 0 Samples.A [Samples.B]).
intros f Hf. vm_compute in Hf. apply list_elem_of_singleton in Hf as ->.
reflexivity.
Defined.
End WalkerMore.

(** ** More about the query shaper *)

Module ShaperMore.
Import Exc Shaper PyJoin PyStrFacts ShaperFacts.

Lemma split_append sep (a b : string) :
PyStr.split sep (a +:+ String sep b) = PyStr.split sep a ++ PyStr.split sep b.
Proof.
induction a as [|c r IH].
- change (EmptyString +:+ String sep b) with (String sep b). simpl.
  by rewrite Ascii.eqb_refl.
- rewrite WalkerFacts.append_cons. simpl. rewrite IH.
  destruct (Ascii.eqb c sep); [done|].
  destruct (PyStr.split sep r) as [|w ws] eqn:Hs; [by apply split_nonempty in Hs|].
  done.
Qed.

(** Listing two entries in the [exclude] parameter removes what either
  of them removes: the active paths for [exclude=a,b] are the paths
  active both for [exclude=a] and for [exclude=b]. *)
Theorem exclude_entries_add_up params serializer_class (a b : string) :
params !! "exclude" = Some (a +:+ String "," b) →
relations_paths params serializer_class =
relations_paths (<[ "exclude" := a ]> params) serializer_class ∩
relations_paths (<[ "exclude" := b ]> params) serializer_class.
Proof.
intros Hex. apply set_eq. intros path.
rewrite elem_of_intersection, !elem_of_relations_paths, !any_startswith_false.
unfold excludes_of, get. rewrite Hex, !lookup_insert_eq. simpl.
rewrite split_append. split.
- intros [Hin Hall]. split; (split; [done|]); intros e He; apply Hall;
    apply elem_of_list_to_set; apply elem_of_list_to_set in He;
    apply elem_of_app; by auto.
- intros [[Hin Ha] [_ Hb]]. split; [done|]. intros e He.
  apply elem_of_list_to_set, elem_of_app in He as [He|He];
    [apply Ha|apply Hb]; by apply elem_of_list_to_set.
Qed.

Lemma exclude_entries_add_up_witness :
relations_paths {[ "exclude" := "author,comments" ]} Requests.blog =
relations_paths (<[ "exclude" := "author" ]> {[ "exclude" := "author,comments" ]})
                Requests.blog ∩
relations_paths (<[ "exclude" := "comments" ]> {[ "exclude" := "author,comments" ]})
                Requests.blog.
Proof.
apply (exclude_entries_add_up {[ "exclude" := "author,comments" ]} Requests.blog
         "author" "comments").
vm_compute. reflexivity.
Defined.

(** A request key that names no possible field and is none of [depth],
  [exclude] and [order_by] changes nothing: with or without it the two
  methods return the same serializer, the same queryset or the same
  error. *)
Theorem unknown_key_is_inert py params serializer_class queryset
  (possible : gset string) (key value : string) :
key ∉ possible → key ≠ "depth" → key ≠ "exclude" → key ≠ "order_by" →
get_queryset py (<[ key := value ]> params) serializer_class queryset possible =
  get_queryset py params serializer_class queryset possible ∧
get_serializer py (Some (<[ key := value ]> params)) serializer_class =
  get_serializer py (Some params) serializer_class.
Proof.
intros Hk Hd He Ho.
assert (depth_argument (<[ key := value ]> params) serializer_class =
        depth_argument params serializer_class) as Hdepth
  by (unfold depth_argument; by rewrite lookup_insert_ne).
assert (relations_paths (<[ key := value ]> params) serializer_class =
        relations_paths params serializer_class) as Hpaths
  by (unfold relations_paths, excludes_of, get; by rewrite lookup_insert_ne).
assert (filter_by_of (<[ key := value ]> params) possible =
        filter_by_of params possible) as Hfilter
  by (unfold filter_by_of; by apply map_filter_insert_not).
assert (order_by_of (<[ key := value ]> params) possible =
        order_by_of params possible) as Horder
  by (unfold order_by_of, get; by rewrite lookup_insert_ne).
unfold get_queryset, get_serializer.
by rewrite Hdepth, Hpaths, Hfilter, Horder.
Qed.

Lemma unknown_key_is_inert_witness :
get_queryset Interpreters.cpython (<[ "nonexistent_field" := "x" ]> ∅) Requests.blog
             Requests.objects {[ "author" ]} =
  get_queryset Interpreters.cpython ∅ Requests.blog Requests.objects {[ "author" ]} ∧
get_serializer Interpreters.cpython (Some (<[ "nonexistent_field" := "x" ]> ∅))
               Requests.blog =
  get_serializer Interpreters.cpython (Some ∅) Requests.blog.
Proof.
apply (unknown_key_is_inert Interpreters.cpython ∅ Requests.blog Requests.objects
         {[ "author" ]} "nonexistent_field" "x").
- by intros ?%elem_of_singleton.
- done.
- done.
- done.
Defined.

(** The keys [depth], [exclude] and [order_by] are not set apart from
  filters: when one of them, like any other request key, names a
  possible field, its value is also passed to [filter]. *)
Theorem control_key_is_also_a_filter py params serializer_class queryset
  (possible : gset string) (key value : string) depth :
int py (depth_argument params serializer_class) = inr depth →
params !! key = Some value → key ∈ possible →
∃ shaped filter_by,
  get_queryset py params serializer_class queryset possible = inr shaped ∧
  filter_calls shaped = filter_calls queryset ++ [filter_by] ∧
  filter_by !! key = Some value.
Proof.
intros Hdepth Hkey Hin.
destruct (get_queryset_ok py params serializer_class queryset possible depth Hdepth)
  as (shaped & Hq & _ & Hf & _).
assert (filter_by_of params possible !! key = Some value) as Hlook
  by (by apply lookup_filter_by_of).
exists shaped, (filter_by_of params possible). split; [done|]. split; [|done].
rewrite Hf. rewrite bool_decide_eq_false_2; [done|].
intros Hempty. rewrite Hempty in Hlook. by rewrite lookup_empty in Hlook.
Qed.

Lemma control_key_is_also_a_filter_witness :
∃ shaped filter_by,
  get_queryset Interpreters.cpython {[ "depth" := "1" ]} Requests.blog
               Requests.objects {[ "depth" ]} = inr shaped ∧
  filter_calls shaped = filter_calls Requests.objects ++ [filter_by] ∧
  filter_by !! "depth" = Some "1".
Proof.
apply (control_key_is_also_a_filter Interpreters.cpython {[ "depth" := "1" ]}
         Requests.blog Requests.objects {[ "depth" ]} "depth" "1" 1%Z).
- vm_compute. reflexivity.
- vm_compute. reflexivity.
- by apply elem_of_singleton.
Defined.

(** [get_queryset] only ever adds to the queryset of the view-set: the
  [filter] calls already made on it stay, in front of at most one new
  one; when no request key names a possible field no [filter] call is
  made, and when no entry of [order_by] does, the ordering is left as
  it was. *)
Theorem base_queryset_is_kept py params serializer_class queryset
  (possible : gset string) depth :
int py (depth_argument params serializer_class) = inr depth →
∃ shaped,
  get_queryset py params serializer_class queryset possible = inr shaped ∧
  filter_calls queryset `prefix_of` filter_calls shaped ∧
  length (filter_calls shaped) ≤ S (length (filter_calls queryset)) ∧
  ((∀ key, key ∈ possible → params !! key = None) →
   filter_calls shaped = filter_calls queryset) ∧
  ((∀ field, field ∈ PyStr.split "," (get params "order_by") → field ∉ possible) →
   ordering shaped = ordering queryset).
Proof.
intros Hdepth.
destruct (get_queryset_ok py params serializer_class queryset possible depth Hdepth)
  as (shaped & Hq & _ & Hf & Ho).
exists shaped. split; [done|]. rewrite Hf, Ho. split; [by eexists|]. split.
- rewrite length_app. destruct (bool_decide _); simpl; lia.
- split.
  + intros Hnone. rewrite bool_decide_eq_true_2; [by rewrite app_nil_r|].
    apply map_eq. intros key. rewrite lookup_empty.
    apply eq_None_not_Some. intros [value Hv].
    apply lookup_filter_by_of in Hv as [Hv Hin].
    rewrite (Hnone key Hin) in Hv. done.
  + intros Hnone. destruct (order_by_of params possible) as [|field l] eqn:Hl;
      [done|].
    assert (field ∈ order_by_of params possible) as Hin by (rewrite Hl; left).
    apply elem_of_order_by_of in Hin as [Hin Hp]. by apply Hnone in Hin.
Qed.

Lemma base_queryset_is_kept_witness :
∃ shaped,
  get_queryset Interpreters.cpython ∅ Requests.blog Requests.objects {[ "author" ]}
    = inr shaped ∧
  filter_calls Requests.objects `prefix_of` filter_calls shaped ∧
  length (filter_calls shaped) ≤ S (length (filter_calls Requests.objects)) ∧
  ((∀ key, key ∈ ({[ "author" ]} : gset string) →
           (∅ : QueryParams) !! key = None) →
   filter_calls shaped = filter_calls Requests.objects) ∧
  ((∀ field, field ∈ PyStr.split "," (get ∅ "order_by") →
             field ∉ ({[ "author" ]} : gset string)) →
   ordering shaped = ordering Requests.objects).
Proof.
apply (base_queryset_is_kept Interpreters.cpython ∅ Requests.blog Requests.objects
         {[ "author" ]} 2%Z).
reflexivity.
Defined.

(** For one request the two methods agree on what they were asked:
    whenever both return, the queryset was optimized for exactly the
    depth and the paths the serializer was built with; and both apply
    [int] to the same depth argument before they call the serializer
    class or the queryset, so a depth [int] cannot read makes each of
    them raise that same exception. *)
Theorem serializer_and_queryset_agree py params serializer_class queryset
  (possible : gset string) :
(∀ depth paths shaped,
   get_serializer py (Some params) serializer_class
     = inr (DeepSerializer depth paths) →
   get_queryset py params serializer_class queryset possible = inr shaped →
   eager_paths shaped = Some (paths, depth)) ∧
(∀ e, int py (depth_argument params serializer_class) = inl e →
      get_serializer py (Some params) serializer_class = inl e ∧
      get_queryset py params serializer_class queryset possible = inl e).
Proof.
split.
- intros depth paths shaped Hs Hq.
  destruct (int py (depth_argument params serializer_class)) as [e|d] eqn:Hi.
  + unfold get_serializer in Hs. by rewrite Hi in Hs.
  + rewrite (get_serializer_ok _ _ _ _ Hi) in Hs.
    destruct (get_queryset_ok _ _ _ queryset possible _ Hi) as (shaped' & Hq' & Hp & _).
    rewrite Hq' in Hq. by simplify_eq.
- intros e Hi. split; [|by apply get_queryset_raises].
  unfold get_serializer. by rewrite Hi.
Qed.
End ShaperMore.

(** ** More about the registry *)

Module RegistryMore.
Import Exc Walker Registry Events RegistryFacts.

(** Every registered key leads to a class object that has the queryset
  and use case the key was made from, its possible fields computed and
  a serializer class. *)
Definition ready (schema : Schema) (st : State) : Prop :=
∀ key h, _viewsets st !! key = Some h →
  ∃ c model,
    classes st !! h = Some c ∧ queryset c = Some model ∧
    key = view_set_key schema (use_case c) model ∧
    _possible_fields c = Some (possible_fields_of schema model []) ∧
    is_Some (serializer_class c).

Lemma ready_extend schema st c key :
ready schema st →
(∃ model, queryset c = Some model ∧
          key = view_set_key schema (use_case c) model ∧
          _possible_fields c = Some (possible_fields_of schema model []) ∧
          is_Some (serializer_class c)) →
ready schema {| classes := classes st ++ [c];
                _viewsets := <[ key := length (classes st) ]> (_viewsets st) |}.
Proof.
intros Hready (model & Hq & Hkey & Hp & Hs) key' h. simpl.
destruct (decide (key' = key)) as [->|Hne].
- rewrite lookup_insert_eq. intros [= <-]. exists c, model.
  by rewrite list_lookup_middle.
- rewrite lookup_insert_ne by done. intros Hk.
  destruct (Hready key' h Hk) as (c' & model' & Hc' & Hrest).
  exists c', model'. split; [|done]. by apply lookup_app_l_Some.
Qed.

Lemma ready_step schema st ev : ready schema st → ready schema (step schema st ev).
Proof.
intros Hready. destruct ev as [base body|cls model use_case]; cbn [step].
- destruct (queryset (inherit base body)) as [model|] eqn:Hq.
  + rewrite (class_statement_registers _ _ _ _ model Hq). simpl.
    apply ready_extend; [done|]. exists model. split; [exact Hq|].
    split; [reflexivity|]. split; [reflexivity|]. unfold initialised.
    cbn [serializer_class]. by destruct (serializer_class (inherit base body)).
  + rewrite (class_statement_passive _ _ _ _ Hq). simpl.
    intros key h Hk. destruct (Hready key h Hk) as (c' & model' & Hc' & Hrest).
    exists c', model'. split; [|done]. by apply lookup_app_l_Some.
- destruct (_viewsets st !! view_set_key schema use_case model) as [h|] eqn:Hv.
  + by rewrite (get_view_set_class_found _ _ _ _ _ _ Hv).
  + rewrite (get_view_set_class_fresh _ _ _ _ _ Hv). simpl.
    apply ready_extend; [done|]. exists model. split; [reflexivity|].
    split; [reflexivity|]. split; [reflexivity|]. unfold generated.
    cbn [serializer_class]. by destruct (serializer_class cls).
Qed.

Lemma ready_run schema events st : ready schema st → ready schema (run schema events st).
Proof.
revert st. induction events as [|ev events IH]; intros st Hready; [done|].
simpl. by apply IH, ready_step.
Qed.

(** Whatever class statements and lookups a program makes after import,
  every key of [_viewsets] leads to a class that has the queryset model
  and the use case the key names, with [_possible_fields] computed from
  that model and a serializer class set. *)
Theorem registered_view_sets_are_ready schema events key h :
_viewsets (run schema events initial) !! key = Some h →
∃ c model,
  classes (run schema events initial) !! h = Some c ∧
  queryset c = Some model ∧
  key = view_set_key schema (use_case c) model ∧
  _possible_fields c = Some (possible_fields_of schema model []) ∧
  is_Some (serializer_class c).
Proof.
apply (ready_run schema events initial). intros key' h'. simpl.
by rewrite lookup_empty.
Qed.

Lemma registered_view_sets_are_ready_witness :
∃ c model,
  classes (run Samples.mutual
             [ClassStatement DeepViewSet ViewSets.BookViewSet;
              GetViewSetClass ReadOnlyDeepViewSet Samples.A "ReadOnly"] initial)
    !! 3 = Some c ∧
  queryset c = Some model ∧
  "BookViewSet" = view_set_key Samples.mutual (use_case c) model ∧
  _possible_fields c = Some (possible_fields_of Samples.mutual model []) ∧
  is_Some (serializer_class c).
Proof.
apply (registered_view_sets_are_ready Samples.mutual
         [ClassStatement DeepViewSet ViewSets.BookViewSet;
          GetViewSetClass ReadOnlyDeepViewSet Samples.A "ReadOnly"]
         "BookViewSet" 3).
vm_compute. reflexivity.
Defined.

Lemma step_extends schema st ev : classes st `prefix_of` classes (step schema st ev).
Proof.
destruct ev as [base body|cls model use_case]; cbn [step].
- destruct (queryset (inherit base body)) as [model|] eqn:Hq.
  + rewrite (class_statement_registers _ _ _ _ model Hq). by eexists.
  + rewrite (class_statement_passive _ _ _ _ Hq). by eexists.
- destruct (_viewsets st !! view_set_key schema use_case model) as [h|] eqn:Hv.
  + by rewrite (get_view_set_class_found _ _ _ _ _ _ Hv).
  + rewrite (get_view_set_class_fresh _ _ _ _ _ Hv). by eexists.
Qed.

(** A class object, once made, is never changed: after any further
  class statements and lookups the classes that existed are still
  there, each under its identity and with the attributes it had. *)
Theorem class_objects_are_never_changed schema events st :
classes st `prefix_of` classes (run schema events st) ∧
∀ h c, classes st !! h = Some c → classes (run schema events st) !! h = Some c.
Proof.
assert (classes st `prefix_of` classes (run schema events st)) as Hpre.
{ revert st. induction events as [|ev events IH]; intros st; [done|].
  simpl. etrans; [apply (step_extends schema st ev)|apply IH]. }
split; [done|]. intros h c Hc. destruct Hpre as [more ->].
by apply lookup_app_l_Some.
Qed.

(** View-sets are kept by name: a request whose use case and model name
  spell a key already asked for gets the class made for the first
  request, also when its model is another one and the class has the
  first model as queryset. Neither request raises [KeyError]. *)
Theorem view_sets_are_keyed_by_name schema cls cls' m m' u u' st :
view_set_key schema u m = view_set_key schema u' m' →
∃ h st',
  get_view_set_class schema cls m u st = (inr h, st') ∧
  get_view_set_class schema cls' m' u' st' = (inr h, st') ∧
  (_viewsets st !! view_set_key schema u m = None →
   ∃ c, classes st' !! h = Some c ∧ queryset c = Some m).
Proof.
intros Hkey.
destruct (_viewsets st !! view_set_key schema u m) as [h|] eqn:Hv.
- exists h, st. rewrite (get_view_set_class_found _ _ _ _ _ _ Hv).
  split; [done|]. split; [|done]. apply get_view_set_class_found. by rewrite <- Hkey.
- rewrite (get_view_set_class_fresh _ _ _ _ _ Hv). eexists _, _.
  split; [done|]. split.
  + apply get_view_set_class_found. simpl. by rewrite <- Hkey, lookup_insert_eq.
  + intros _. exists (generated schema cls m u). simpl.
    by rewrite list_lookup_middle.
Qed.

Lemma view_sets_are_keyed_by_name_witness :
∃ h st',
  get_view_set_class Homonyms.shop DeepViewSet Samples.A EmptyString initial
    = (inr h, st') ∧
  get_view_set_class Homonyms.shop DeepViewSet Samples.B EmptyString st'
    = (inr h, st') ∧
  (_viewsets initial !! view_set_key Homonyms.shop EmptyString Samples.A = None →
   ∃ c, classes st' !! h = Some c ∧ queryset c = Some Samples.A).
Proof.
apply (view_sets_are_keyed_by_name Homonyms.shop DeepViewSet DeepViewSet
         Samples.A Samples.B EmptyString EmptyString initial).
vm_compute. reflexivity.
Defined.

(** For a key not yet registered, [get_view_set_class] makes one new
  class and registers it: named after the key, with the use case and
  the model asked for, the possible fields of that model, and the
  serializer class of the class it was called on, or a generated one
  when that class has none. Nothing else is registered. *)
Theorem fresh_view_set_is_generated schema cls model use_case st :
_viewsets st !! view_set_key schema use_case model = None →
∃ c st',
  get_view_set_class schema cls model use_case st =
    (inr (length (classes st)), st') ∧
  classes st' = classes st ++ [c] ∧
  _viewsets st' =
    <[ view_set_key schema use_case model := length (classes st) ]> (_viewsets st) ∧
  cls_name c = view_set_key schema use_case model ∧
  Registry.use_case c = use_case ∧
  queryset c = Some model ∧
  _possible_fields c = Some (possible_fields_of schema model []) ∧
  serializer_class c = match serializer_class cls with
                       | Some s => Some s
                       | None => Some (Generated model use_case)
                       end.
Proof.
intros Hv. rewrite (get_view_set_class_fresh _ _ _ _ _ Hv).
exists (generated schema cls model use_case). eexists. split; [done|]. simpl.
by destruct (serializer_class cls).
Qed.

Lemma fresh_view_set_is_generated_witness :
∃ c st',
  get_view_set_class Samples.mutual ReadOnlyDeepViewSet Samples.B "ReadOnly" initial =
    (inr (length (classes initial)), st') ∧
  classes st' = classes initial ++ [c] ∧
  _viewsets st' =
    <[ view_set_key Samples.mutual "ReadOnly" Samples.B := length (classes initial) ]>
      (_viewsets initial) ∧
  cls_name c = view_set_key Samples.mutual "ReadOnly" Samples.B ∧
  Registry.use_case c = "ReadOnly" ∧
  queryset c = Some Samples.B ∧
  _possible_fields c = Some (possible_fields_of Samples.mutual Samples.B []) ∧
  serializer_class c = match serializer_class ReadOnlyDeepViewSet with
                       | Some s => Some s
                       | None => Some (Generated Samples.B "ReadOnly")
                       end.
Proof.
apply (fresh_view_set_is_generated Samples.mutual ReadOnlyDeepViewSet Samples.B
         "ReadOnly" initial).
reflexivity.
Defined.

Lemma get_view_set_class_returns schema cls model use_case st :
∃ h st',
  get_view_set_class schema cls model use_case st = (inr h, st') ∧
  _viewsets st' !! view_set_key schema use_case model = Some h ∧
  (∀ key h', _viewsets st !! key = Some h' → _viewsets st' !! key = Some h').
Proof.
destruct (_viewsets st !! view_set_key schema use_case model) as [h|] eqn:Hv.
- exists h, st. by rewrite (get_view_set_class_found _ _ _ _ _ _ Hv).
- rewrite (get_view_set_class_fresh _ _ _ _ _ Hv). eexists _, _.
  split; [done|]. simpl. split; [by rewrite lookup_insert_eq|].
  intros key h' Hk. rewrite lookup_insert_ne; [done|]. intros <-. congruence.
Qed.

(** The routes [init_router] asks the router to register for a list of
    models and the view-sets found or generated for them. *)
Definition routes (schema : Schema) (models : list Model) (handlers : list nat)
  : list Route :=
  zip_with (λ m h, (name_of schema m, h, name_of schema m)) models handlers.

(** The lookups [init_router] makes for a list of models. *)
Definition lookups_of (cls : ViewSetClass) (models : list Model) : list Lookup :=
  (λ m, (cls, m, EmptyString)) <$> models.

Lemma run_lookups_cons schema cls m use_case lookups st :
  run_lookups schema ((cls, m, use_case) :: lookups) st =
  run_lookups schema lookups (get_view_set_class schema cls m use_case st).2.
Proof. reflexivity. Qed.

Lemma init_router_spec {R : Type} (register : R → Route → result R) schema cls models :
  ∀ router st, ∃ reached handlers,
    reached `prefix_of` models ∧
    (init_router register schema cls router models st).2
      = run_lookups schema (lookups_of cls reached) st ∧
    Forall2 (λ m h,
               _viewsets (init_router register schema cls router models st).2
                 !! view_set_key schema EmptyString m = Some h)
            reached handlers ∧
    match (init_router register schema cls router models st).1 with
    | inr router' =>
        reached = models ∧
        register_all register router (routes schema models handlers) = inr router'
    | inl e =>
        register_all register router (routes schema reached handlers) = inl e
    end.
Proof.
induction models as [|m models IH]; intros router st.
- exists [], []. simpl. by repeat constructor.
- cbn [init_router].
  destruct (get_view_set_class_returns schema cls m EmptyString st)
    as (h & st1 & Hget & Hh & _).
  assert (∀ rest, run_lookups schema (lookups_of cls (m :: rest)) st
                  = run_lookups schema (lookups_of cls rest) st1) as Hrun.
  { intros rest. unfold lookups_of. rewrite fmap_cons, run_lookups_cons.
    by rewrite Hget. }
  rewrite Hget.
  destruct (register router (name_of schema m, h, name_of schema m))
    as [e|router1] eqn:Hreg.
  + exists [m], [h]. cbn [fst snd]. split; [by exists models|].
    split; [by rewrite Hrun|]. split; [by repeat constructor|].
    cbn [routes zip_with register_all]. by rewrite Hreg.
  + destruct (IH router1 st1) as (reached & handlers & Hpre & Hst & Hall & Hres).
    exists (m :: reached), (h :: handlers). split; [by apply prefix_cons|].
    split.
    { by rewrite Hst, Hrun. }
    split.
    { constructor; [|done]. rewrite Hst. by apply run_lookups_preserves. }
    destruct (init_router register schema cls router1 models st1).1 as [e|router'].
    * cbn [routes zip_with register_all]. rewrite Hreg. exact Hres.
    * destruct Hres as [-> Hres]. split; [done|].
      cbn [routes zip_with register_all]. rewrite Hreg. exact Hres.
Qed.

Lemma init_router_again {R : Type} (register : R → Route → result R) schema cls models :
  ∀ router st handlers,
    Forall2 (λ m h, _viewsets st !! view_set_key schema EmptyString m = Some h)
            models handlers →
    (init_router register schema cls router models st).2 = st.
Proof.
induction models as [|m models IH]; intros router st handlers Hall; [done|].
apply Forall2_cons_inv_l in Hall as (h & handlers' & Hh & Hall & ->).
cbn [init_router]. rewrite (get_view_set_class_found _ _ _ _ _ _ Hh).
destruct (register router (name_of schema m, h, name_of schema m)); [done|].
by apply (IH _ _ handlers').
Qed.

(** [init_router] goes through the models in order: for each it asks
    [get_view_set_class] for the view-set of the empty use case, whatever
    the use case of the class it is called on, and hands it to the
    router's [register] with the model's name as prefix and basename. It
    ends at the first [register] call that raises, with that exception,
    and leaves registered in [_viewsets] the view-sets of the models
    reached so far; when no call raises it has reached every model. Once
    it has returned, calling it again on the same models, on any router,
    makes no new class whatever the router answers. *)
Theorem init_router_registers_each_model {R : Type} (register : R → Route → result R)
    schema cls router models st :
  ∃ reached handlers,
    reached `prefix_of` models ∧
    (init_router register schema cls router models st).2
      = run_lookups schema (lookups_of cls reached) st ∧
    Forall2 (λ m h,
               _viewsets (init_router register schema cls router models st).2
                 !! view_set_key schema EmptyString m = Some h)
            reached handlers ∧
    match (init_router register schema cls router models st).1 with
    | inr router' =>
        reached = models ∧
        register_all register router (routes schema models handlers) = inr router' ∧
        ∀ {R' : Type} (register' : R' → Route → result R') cls' router2,
          (init_router register' schema cls' router2 models
             (init_router register schema cls router models st).2).2
          = (init_router register schema cls router models st).2
    | inl e =>
        register_all register router (routes schema reached handlers) = inl e
    end.
Proof.
destruct (init_router_spec register schema cls models router st)
  as (reached & handlers & Hpre & Hst & Hall & Hres).
exists reached, handlers. split; [done|]. split; [done|]. split; [done|].
destruct (init_router register schema cls router models st).1 as [e|router'];
  [done|].
destruct Hres as [-> Hres]. split; [done|]. split; [done|].
intros R' register' cls' router2. by apply init_router_again with handlers.
Qed.

Lemma init_router_registers_each_model_witness :
  (∃ reached handlers,
     reached `prefix_of` [Samples.A; Samples.B] ∧
     (init_router Routers.unique_basename Homonyms.shop DeepViewSet []
        [Samples.A; Samples.B] initial).2
       = run_lookups Homonyms.shop (lookups_of DeepViewSet reached) initial ∧
     Forall2 (λ m h,
                _viewsets (init_router Routers.unique_basename Homonyms.shop
                             DeepViewSet [] [Samples.A; Samples.B] initial).2
                  !! view_set_key Homonyms.shop EmptyString m = Some h)
             reached handlers ∧
     match (init_router Routers.unique_basename Homonyms.shop DeepViewSet []
              [Samples.A; Samples.B] initial).1 with
     | inr router' =>
         reached = [Samples.A; Samples.B] ∧
         register_all Routers.unique_basename []
           (routes Homonyms.shop [Samples.A; Samples.B] handlers) = inr router' ∧
         ∀ {R' : Type} (register' : R' → Route → result R') cls' router2,
           (init_router register' Homonyms.shop cls' router2 [Samples.A; Samples.B]
              (init_router Routers.unique_basename Homonyms.shop DeepViewSet []
                 [Samples.A; Samples.B] initial).2).2
           = (init_router Routers.unique_basename Homonyms.shop DeepViewSet []
                [Samples.A; Samples.B] initial).2
     | inl e =>
         register_all Routers.unique_basename []
           (routes Homonyms.shop reached handlers) = inl e
     end) ∧
  (init_router Routers.unique_basename Homonyms.shop DeepViewSet []
     [Samples.A; Samples.B] initial).1 = inl (ImproperlyConfigured "Item") ∧
  (init_router Routers.keep_all Samples.mutual ReadOnlyDeepViewSet []
     [Samples.A; Samples.B] initial).1
    = inr [("Author", 3, "Author"); ("Book", 4, "Book")].
Proof.
split; [|split].
- apply (init_router_registers_each_model Routers.unique_basename Homonyms.shop
           DeepViewSet [] [Samples.A; Samples.B] initial).
- vm_compute. reflexivity.
- vm_compute. reflexivity.
Defined.

(** A class that inherits from a registered view-set and assigns neither
  [queryset] nor [use_case] is registered under the key of its parent
  and takes its place: from then on lookups of that key return the new
  class, while every other key keeps its class. *)
Theorem subclass_takes_over schema base body model st :
body_queryset body = None → body_use_case body = None →
queryset base = Some model →
∃ st',
  class_statement schema base body st = (length (classes st), st') ∧
  _viewsets st' !! view_set_key schema (use_case base) model
    = Some (length (classes st)) ∧
  (∀ key, key ≠ view_set_key schema (use_case base) model →
          _viewsets st' !! key = _viewsets st !! key) ∧
  ∀ cls, get_view_set_class schema cls model (use_case base) st' =
           (inr (length (classes st)), st').
Proof.
intros Hq Hu Hbase.
assert (queryset (inherit base body) = Some model) as Hq'
  by (unfold inherit; simpl; by rewrite Hq).
assert (use_case (inherit base body) = use_case base) as Hu'
  by (unfold inherit; simpl; by rewrite Hu).
rewrite (class_statement_registers _ _ _ _ model Hq'), Hu'. eexists.
split; [done|]. simpl. split; [by rewrite lookup_insert_eq|]. split.
- intros key Hne. by rewrite lookup_insert_ne.
- intros cls. apply get_view_set_class_found. simpl. by rewrite lookup_insert_eq.
Qed.

Lemma subclass_takes_over_witness :
∃ st',
  class_statement Samples.mutual
    (inherit DeepViewSet ViewSets.BookViewSet) ViewSets.AuditedBookViewSet
    (class_statement Samples.mutual DeepViewSet ViewSets.BookViewSet initial).2
    = (4, st') ∧
  _viewsets st' !! "BookViewSet" = Some 4 ∧
  (∀ key, key ≠ "BookViewSet" →
          _viewsets st' !! key =
          _viewsets (class_statement Samples.mutual DeepViewSet
                       ViewSets.BookViewSet initial).2 !! key) ∧
  ∀ cls, get_view_set_class Samples.mutual cls Samples.B EmptyString st' =
           (inr 4, st').
Proof.
apply (subclass_takes_over Samples.mutual
         (inherit DeepViewSet ViewSets.BookViewSet) ViewSets.AuditedBookViewSet
         Samples.B
         (class_statement Samples.mutual DeepViewSet ViewSets.BookViewSet initial).2).
- reflexivity.
- reflexivity.
- reflexivity.
Defined.
End RegistryMore.

(** ** More about the nested write *)

Module NestedWriteMore.
Import Exc Walker NestedWrite.

(** A [depth] parameter that [int] cannot read stops [deep_create]
  before anything is written: [get_serializer] raises [ValueError] and
  storage is left as it was, whatever the payload. *)
Theorem unreadable_depth_writes_nothing validate coerce py request serializer_class
  model request_data st (s : string) :
request !! "depth" = Some s → PyStr.int_of_str py s = None →
deep_create validate coerce py request serializer_class model request_data st =
  (inl (ValueError s), st).
Proof.
intros Hd Hp. unfold deep_create, Shaper.get_serializer, Shaper.depth_argument.
rewrite Hd. unfold Shaper.int. by rewrite Hp.
Qed.

Lemma unreadable_depth_writes_nothing_witness :
deep_create Writes.title_required Writes.keep Interpreters.cpython
            {[ "depth" := "deep" ]} Requests.blog
            Samples.A Writes.author_with_books [] =
  (inl (ValueError "deep"), []).
Proof.
apply (unreadable_depth_writes_nothing Writes.title_required Writes.keep
         Interpreters.cpython
         {[ "depth" := "deep" ]} Requests.blog Samples.A Writes.author_with_books
         [] "deep").
- vm_compute. reflexivity.
- vm_compute. reflexivity.
Defined.
End NestedWriteMore.
